(** * Radiant blockchain constants: Glyph protocol validator and WAVE names

    A shallow embedding of [src/glyph.ts] and [src/wave.ts].

    JavaScript strings are sequences of UTF-16 code units; they are
    modelled as [list N].  Functions that [throw] return a [Result];
    validators return the record [{ valid; error }] the source returns.
    [String.prototype.toLowerCase] is a built-in of the language, not of
    this package: the WAVE functions take it as a parameter and the
    theorems assume only what ECMAScript guarantees for ASCII input. *)

From Stdlib Require Import List NArith ZArith Bool Lia String Ascii DecimalString.
From Stdlib Require Import Permutation.
Import ListNotations.

(* ================================================================== *)
(** * Part I: definitions                                              *)
(* ================================================================== *)

(** ** JavaScript strings, arrays and exceptions *)

Module JS.

(** A string is its sequence of UTF-16 code units. *)
Definition jsstring := list N.

(** An ASCII literal as a JavaScript string. *)
Definition str (s : string) : jsstring :=
  map N_of_ascii (list_ascii_of_string s).

(** The double-quote character, written by code to keep literals plain. *)
Definition dquote : jsstring := [34%N].

(** [`"${s}"`]: a string between double quotes. *)
Definition quoted (s : jsstring) : jsstring := dquote ++ s ++ dquote.

(** Numbers are IEEE doubles.  The integer-valued ones are modelled by
    their value in [Z]; [roundToDouble] is the rounding every arithmetic
    result goes through: to the nearest number with a 53-bit
    significand, ties to the even one. *)
Definition roundToDouble (z : Z) : Z :=
  let a := Z.abs z in
  let e := Z.log2 a in
  if (e <? 53)%Z then z
  else
    let ulp := (2 ^ (e - 52))%Z in
    let q := (a / ulp)%Z in
    let r := (a mod ulp)%Z in
    let half := (ulp / 2)%Z in
    let q' := if (r <? half)%Z then q
              else if (half <? r)%Z then (q + 1)%Z
              else if Z.even q then q else (q + 1)%Z in
    (Z.sgn z * (q' * ulp))%Z.

(** The largest finite double. *)
Definition maxDouble : Z := (2 ^ 1024 - 2 ^ 971)%Z.

(** The integers that are doubles. *)
Definition isDouble (z : Z) : Prop :=
  roundToDouble z = z /\ (Z.abs z <= maxDouble)%Z.

(** The decimal digits of an integer. *)
Definition decimal (x : Z) : jsstring :=
  str (NilEmpty.string_of_int (Z.to_int x)).

(** Number::toString, step 5, for an integer double [x] above 2^53: the
    integer with the fewest significant digits that rounds to [x], the
    closest one when two have as few.  [k] counts significant digits,
    [digits] is the number of digits of [x]. *)
Fixpoint shortestFrom (fuel : nat) (k : Z) (digits : Z) (x : Z) : Z :=
  match fuel with
  | O => x
  | S fuel' =>
      let p := (10 ^ (digits - k))%Z in
      let lo := (x / p * p)%Z in
      let hi := (lo + p)%Z in
      let okLo := (roundToDouble lo =? x)%Z in
      let okHi := (roundToDouble hi =? x)%Z in
      if okLo && okHi
      then if (x - lo <? hi - x)%Z then lo
           else if (hi - x <? x - lo)%Z then hi
           else if Z.even (lo / p) then lo else hi
      else if okLo then lo
      else if okHi then hi
      else shortestFrom fuel' (k + 1)%Z digits x
  end.

(** Seventeen significant digits tell any two doubles apart. *)
Definition shortest (x : Z) : Z :=
  shortestFrom 17 1%Z (Z.of_nat (List.length (decimal x))) x.

Fixpoint dropZeros (digits : jsstring) : jsstring :=
  match digits with
  | 48%N :: rest => dropZeros rest
  | _ => digits
  end.

(** Number::toString for 10^21 and above: one digit, a point and the
    other significant digits if there are any, then the exponent. *)
Definition exponential (v : Z) : jsstring :=
  let digits := decimal v in
  let n := Z.of_nat (List.length digits) in
  match rev (dropZeros (rev digits)) with
  | [] => digits
  | first :: rest =>
      [first] ++ match rest with [] => [] | _ => str "." ++ rest end
      ++ str "e+" ++ decimal (n - 1)%Z
  end.

Definition positiveToString (x : Z) : jsstring :=
  if (x <=? 2 ^ 53)%Z then decimal x
  else let v := shortest x in
       if (v <? 10 ^ 21)%Z then decimal v else exponential v.

(** [`${n}`] for a number [n] with an integer value: Number::toString.
    Up to 2^53 these are the decimal digits; above, the shortest digits
    that still name the double, followed by zeros, and from 10^21 on the
    exponent form. *)
Definition ofZ (z : Z) : jsstring :=
  if (z <? 0)%Z then str "-" ++ positiveToString (- z)%Z else positiveToString z.

(** [`${s}`] for an optional string: a missing one prints "undefined". *)
Definition render (o : option jsstring) : jsstring :=
  match o with
  | Some s => s
  | None => str "undefined"
  end.

(** [s.length] *)
Definition length (s : jsstring) : Z := Z.of_nat (List.length s).

(** [s.startsWith(pre)] *)
Fixpoint startsWith (s pre : jsstring) {struct pre} : bool :=
  match pre with
  | [] => true
  | p :: pre' =>
      match s with
      | [] => false
      | c :: s' => (c =? p)%N && startsWith s' pre'
      end
  end.

(** [s.endsWith(suf)] *)
Definition endsWith (s suf : jsstring) : bool :=
  startsWith (rev s) (rev suf).

(** [s.includes(sub)]: substring test. *)
Fixpoint includes (s sub : jsstring) : bool :=
  startsWith s sub ||
  match s with
  | [] => false
  | _ :: s' => includes s' sub
  end.

Fixpoint indexOfFrom (i : Z) (s sub : jsstring) : Z :=
  if startsWith s sub then i
  else match s with
       | [] => (-1)%Z
       | _ :: s' => indexOfFrom (i + 1) s' sub
       end.

(** [s.indexOf(sub)]: position of the first occurrence, or -1. *)
Definition indexOf (s sub : jsstring) : Z := indexOfFrom 0 s sub.

(** [s[i]] for an integer [i] inside the string. *)
Definition charAt (s : jsstring) (i : Z) : jsstring :=
  match nth_error s (Z.to_nat i) with
  | Some c => [c]
  | None => []
  end.

(** [s.split(sep)] for a one-unit separator [sep]. *)
Fixpoint split (sep : N) (s : jsstring) : list jsstring :=
  match s with
  | [] => [[]]
  | c :: s' =>
      if (c =? sep)%N then [] :: split sep s'
      else match split sep s' with
           | piece :: rest => (c :: piece) :: rest
           | [] => [[c]]
           end
  end.

(** [s.split('')]: one string per code unit. *)
Definition splitUnits (s : jsstring) : list jsstring :=
  map (fun c => [c]) s.

(** [labels.join(sep)] *)
Fixpoint join (sep : jsstring) (l : list jsstring) : jsstring :=
  match l with
  | [] => []
  | [x] => x
  | x :: rest => x ++ sep ++ join sep rest
  end.

Definition isHighSurrogate (u : N) : bool :=
  ((55296 <=? u) && (u <=? 56319))%N.

Definition isLowSurrogate (u : N) : bool :=
  ((56320 <=? u) && (u <=? 57343))%N.

(** [for (const ch of s)]: iteration is by code point, so a high
    surrogate followed by a low one comes out as one two-unit string. *)
Fixpoint codePoints (s : jsstring) : list jsstring :=
  match s with
  | [] => []
  | u :: t =>
      match t with
      | v :: t' =>
          if isHighSurrogate u && isLowSurrogate v
          then [u; v] :: codePoints t'
          else [u] :: codePoints t
      | [] => [[u]]
      end
  end.

(** [arr.includes(x)] on an array of numbers. *)
Definition arrIncludes (arr : list Z) (x : Z) : bool :=
  existsb (Z.eqb x) arr.

(** A call either returns or throws [new Error(message)]. *)
Inductive Result (A : Type) : Type :=
| Ok (value : A)
| Throw (message : jsstring).

Arguments Ok {A} value.
Arguments Throw {A} message.

Definition bind {A B} (c : Result A) (k : A -> Result B) : Result B :=
  match c with
  | Ok a => k a
  | Throw m => Throw m
  end.

Definition throws {A} (c : Result A) : bool :=
  match c with
  | Ok _ => false
  | Throw _ => true
  end.

(** [arr.map(f)] where the callback may throw: the first exception
    leaves the map. *)
Fixpoint mapM {A B} (f : A -> Result B) (l : list A) : Result (list B) :=
  match l with
  | [] => Ok []
  | x :: rest =>
      bind (f x) (fun y => bind (mapM f rest) (fun ys => Ok (y :: ys)))
  end.

(** The result shape of every validator: [{ valid, error? }]. *)
Record Validation : Type := mkValidation {
  valid : bool;
  error : option jsstring
}.

Definition pass : Validation := mkValidation true None.
Definition fail (message : jsstring) : Validation :=
  mkValidation false (Some message).

(** The results of arithmetic on integer-valued doubles: a double with
    an integer value, an infinity, or NaN. *)
Inductive number : Type :=
| Finite (value : Z)
| Infinite (positive : bool)
| NaN.

(** The double nearest to the exact result [z] of an operation. *)
Definition toDouble (z : Z) : number :=
  let r := roundToDouble z in
  if (r >? maxDouble)%Z then Infinite true
  else if (r <? - maxDouble)%Z then Infinite false
  else Finite r.

(** [a + b] *)
Definition numAdd (a b : number) : number :=
  match a, b with
  | NaN, _ | _, NaN => NaN
  | Finite x, Finite y => toDouble (x + y)
  | Infinite s, Finite _ | Finite _, Infinite s => Infinite s
  | Infinite s, Infinite t => if Bool.eqb s t then Infinite s else NaN
  end.

(** [a * b] *)
Definition numMul (a b : number) : number :=
  match a, b with
  | NaN, _ | _, NaN => NaN
  | Finite x, Finite y => toDouble (x * y)
  | Infinite s, Finite x | Finite x, Infinite s =>
      if (x =? 0)%Z then NaN
      else Infinite (if (0 <? x)%Z then s else negb s)
  | Infinite s, Infinite t => Infinite (Bool.eqb s t)
  end.

(** ASCII lowercasing of one code unit. *)
Definition asciiLowerUnit (u : N) : N :=
  if ((65 <=? u) && (u <=? 90))%N then (u + 32)%N else u.

Definition isAscii (u : N) : Prop := (u < 128)%N.

End JS.

Import JS.

Declare Scope js_scope.
Delimit Scope js_scope with js.
Notation "x <- c ;; k" := (bind c (fun x => k))
  (at level 61, c at next level, right associativity) : js_scope.
Open Scope js_scope.

(** ** glyph.ts: protocol ids and the combination validator *)

Module Glyph.

Open Scope Z_scope.

Definition GLYPH_FT : Z := 1.
Definition GLYPH_NFT : Z := 2.
Definition GLYPH_DAT : Z := 3.
Definition GLYPH_DMINT : Z := 4.
Definition GLYPH_MUT : Z := 5.
Definition GLYPH_BURN : Z := 6.
Definition GLYPH_CONTAINER : Z := 7.
Definition GLYPH_ENCRYPTED : Z := 8.
Definition GLYPH_TIMELOCK : Z := 9.
Definition GLYPH_AUTHORITY : Z := 10.
Definition GLYPH_WAVE : Z := 11.

(** [Object.entries(GlyphProtocol)], in declaration order. *)
Definition GlyphProtocol : list (string * Z) :=
  [ ("GLYPH_FT"%string, GLYPH_FT);
    ("GLYPH_NFT"%string, GLYPH_NFT);
    ("GLYPH_DAT"%string, GLYPH_DAT);
    ("GLYPH_DMINT"%string, GLYPH_DMINT);
    ("GLYPH_MUT"%string, GLYPH_MUT);
    ("GLYPH_BURN"%string, GLYPH_BURN);
    ("GLYPH_CONTAINER"%string, GLYPH_CONTAINER);
    ("GLYPH_ENCRYPTED"%string, GLYPH_ENCRYPTED);
    ("GLYPH_TIMELOCK"%string, GLYPH_TIMELOCK);
    ("GLYPH_AUTHORITY"%string, GLYPH_AUTHORITY);
    ("GLYPH_WAVE"%string, GLYPH_WAVE) ].

Definition getProtocolName (id : Z) : option jsstring :=
  option_map (fun entry => str (fst entry))
             (find (fun entry => snd entry =? id) GlyphProtocol).

(** The object literal [PROTOCOL_REQUIREMENTS], key by key. *)
Definition PROTOCOL_REQUIREMENTS_entries : list (Z * list Z) :=
  [ (GLYPH_DMINT, [GLYPH_FT]);
    (GLYPH_MUT, [GLYPH_NFT]);
    (GLYPH_CONTAINER, [GLYPH_NFT]);
    (GLYPH_ENCRYPTED, [GLYPH_NFT]);
    (GLYPH_TIMELOCK, [GLYPH_ENCRYPTED]);
    (GLYPH_AUTHORITY, [GLYPH_NFT]);
    (GLYPH_WAVE, [GLYPH_NFT; GLYPH_MUT]) ].

(** [PROTOCOL_REQUIREMENTS[protocol]], [None] for [undefined]. *)
Definition PROTOCOL_REQUIREMENTS (protocol : Z) : option (list Z) :=
  option_map snd
    (find (fun entry => fst entry =? protocol) PROTOCOL_REQUIREMENTS_entries).

Definition PROTOCOL_EXCLUSIONS : list (Z * Z) :=
  [ (GLYPH_FT, GLYPH_NFT) ].

Definition PROTOCOLS_REQUIRE_BASE : list Z :=
  [ GLYPH_DMINT; GLYPH_MUT; GLYPH_BURN; GLYPH_CONTAINER;
    GLYPH_ENCRYPTED; GLYPH_TIMELOCK; GLYPH_AUTHORITY; GLYPH_WAVE ].

(** First loop of [validateProtocols]: the first exclusion pair with
    both members present stops the function with its message. *)
Fixpoint checkExclusions (pairs : list (Z * Z)) (protocols : list Z)
  : option jsstring :=
  match pairs with
  | [] => None
  | (a, b) :: rest =>
      if arrIncludes protocols a && arrIncludes protocols b
      then Some (str "Protocols " ++ render (getProtocolName a)
                 ++ str " and " ++ render (getProtocolName b)
                 ++ str " are mutually exclusive")
      else checkExclusions rest protocols
  end.

(** Inner loop of the second check: the first requirement of
    [protocol] that is absent. *)
Fixpoint checkRequired (protocol : Z) (requirements : list Z)
         (protocols : list Z) : option jsstring :=
  match requirements with
  | [] => None
  | required :: rest =>
      if negb (arrIncludes protocols required)
      then Some (str "Protocol " ++ render (getProtocolName protocol)
                 ++ str " requires " ++ render (getProtocolName required))
      else checkRequired protocol rest protocols
  end.

(** Outer loop of the second check, over the elements still to visit. *)
Fixpoint checkRequirements (todo : list Z) (protocols : list Z)
  : option jsstring :=
  match todo with
  | [] => None
  | protocol :: rest =>
      match PROTOCOL_REQUIREMENTS protocol with
      | Some requirements =>
          match checkRequired protocol requirements protocols with
          | Some message => Some message
          | None => checkRequirements rest protocols
          end
      | None => checkRequirements rest protocols
      end
  end.

(** [protocols.length === 1 && PROTOCOLS_REQUIRE_BASE.includes(protocols[0])] *)
Definition aloneNeedsBase (protocols : list Z) : option Z :=
  match protocols with
  | [only] => if arrIncludes PROTOCOLS_REQUIRE_BASE only then Some only else None
  | _ => None
  end.

Definition validateProtocols (protocols : list Z) : Validation :=
  match checkExclusions PROTOCOL_EXCLUSIONS protocols with
  | Some message => fail message
  | None =>
      match checkRequirements protocols protocols with
      | Some message => fail message
      | None =>
          match aloneNeedsBase protocols with
          | Some only =>
              fail (str "Protocol " ++ render (getProtocolName only)
                    ++ str " cannot exist alone")
          | None =>
              if arrIncludes protocols GLYPH_BURN
              then if negb (arrIncludes protocols GLYPH_FT)
                      && negb (arrIncludes protocols GLYPH_NFT)
                   then fail (str "BURN must accompany FT or NFT")
                   else pass
              else pass
          end
      end
  end.

(** What the second loop asks of one element. *)
Definition requirementsMet (protocols : list Z) (protocol : Z) : bool :=
  match PROTOCOL_REQUIREMENTS protocol with
  | Some requirements => forallb (arrIncludes protocols) requirements
  | None => true
  end.

(** Burn present with neither token type: the condition of the last check. *)
Definition burnWithoutBase (protocols : list Z) : bool :=
  arrIncludes protocols GLYPH_BURN
  && negb (arrIncludes protocols GLYPH_FT)
  && negb (arrIncludes protocols GLYPH_NFT).

(** The accept condition in terms of membership alone. *)
Definition acceptable (protocols : list Z) : bool :=
  negb (arrIncludes protocols GLYPH_FT && arrIncludes protocols GLYPH_NFT)
  && forallb (requirementsMet protocols) protocols
  && negb (burnWithoutBase protocols).

(** Removal of duplicate ids, keeping each id at its first position
    (what [[...new Set(l)]] yields). *)
Fixpoint dedup (l : list Z) : list Z :=
  match l with
  | [] => []
  | x :: rest => x :: filter (fun y => negb (y =? x)) (dedup rest)
  end.

End Glyph.

(** ** wave.ts: the WAVE naming system *)

Module Wave.

Open Scope Z_scope.

(** The 37-symbol alphabet: index 0-25 a-z, 26-35 0-9, 36 hyphen. *)
Definition WAVE_CHARS : jsstring :=
  str "abcdefghijklmnopqrstuvwxyz0123456789-".

Definition WAVE_OUTPUT_COUNT : Z := 38.

Definition MIN_NAME_LENGTH : Z := 1.
Definition MAX_NAME_LENGTH : Z := 63.
Definition MAX_SUBDOMAIN_DEPTH : Z := 127.
Definition CHAR_COUNT : Z := 37.

(** [WaveProtocols.WAVE_NAME] and [WaveProtocols.WAVE_NAME_IMMUTABLE] *)
Definition WAVE_NAME : list Z :=
  [Glyph.GLYPH_NFT; Glyph.GLYPH_MUT; Glyph.GLYPH_WAVE].
Definition WAVE_NAME_IMMUTABLE : list Z :=
  [Glyph.GLYPH_NFT; Glyph.GLYPH_WAVE].

(** [WaveSchema] *)
Definition NAMESPACE : jsstring := str "rxd.wave".
Definition VERSION : jsstring := str "wave_name_v1".
Definition TYPE : jsstring := str "wave_name".

(** [WaveDelegation] *)
Record WaveDelegation : Type := mkWaveDelegation {
  address : jsstring;
  permissions : list jsstring
}.

(** [WaveNameData], over the type of zone-record objects. *)
Record WaveNameData (Zone : Type) : Type := mkWaveNameData {
  data_name : jsstring;
  parent : option jsstring;          (* [None] is [null] *)
  registered : option Z;
  zone : Zone;
  delegations : option (list (jsstring * WaveDelegation))
}.

Arguments mkWaveNameData {Zone}.
Arguments data_name {Zone}.
Arguments parent {Zone}.
Arguments registered {Zone}.
Arguments zone {Zone}.
Arguments delegations {Zone}.

(** The [app] section of the metadata. *)
Record WaveApp (Zone : Type) : Type := mkWaveApp {
  namespace : jsstring;
  schema : jsstring;
  data : WaveNameData Zone
}.

Arguments mkWaveApp {Zone}.
Arguments namespace {Zone}.
Arguments schema {Zone}.
Arguments data {Zone}.

(** The [mutable] block of the metadata. *)
Record MutableBlock : Type := mkMutableBlock {
  allowed : bool;
  controller : option jsstring;
  fields : list jsstring
}.

(** [WaveMetadata]; an optional property that is not set is [None]. *)
Record WaveMetadata (Zone : Type) : Type := mkWaveMetadata {
  v : Z;
  type : jsstring;
  p : list Z;
  name : option jsstring;
  desc : option jsstring;
  app : WaveApp Zone;
  mutable : option MutableBlock
}.

Arguments mkWaveMetadata {Zone}.
Arguments v {Zone}.
Arguments type {Zone}.
Arguments p {Zone}.
Arguments name {Zone}.
Arguments desc {Zone}.
Arguments app {Zone}.
Arguments mutable {Zone}.

(** The [options] argument of [createWaveMetadata]. *)
Record WaveOptions : Type := mkWaveOptions {
  opt_mutable : option bool;
  opt_controllerRef : option jsstring;
  opt_description : option jsstring
}.

(** [{}] as an options object. *)
Definition noOptions : WaveOptions := mkWaveOptions None None None.

(** One element of the array [getCharacterPath] returns. *)
Record PathEntry : Type := mkPathEntry {
  char : jsstring;
  index : Z;
  outputIndex : Z
}.

(** Truthiness of a string: [!name] holds of the empty string only. *)
Definition falsy (s : jsstring) : bool :=
  match s with
  | [] => true
  | _ :: _ => false
  end.

(** Truthiness of an optional string property, as in [if (options.x)]. *)
Definition truthy (o : option jsstring) : bool :=
  match o with
  | Some s => negb (falsy s)
  | None => false
  end.

(** The character loop of [validateWaveName]: the first code point of
    the lowercased name that [WAVE_CHARS] does not include. *)
Fixpoint firstInvalidChar (chars : list jsstring) : option jsstring :=
  match chars with
  | [] => None
  | ch :: rest =>
      if negb (includes WAVE_CHARS ch) then Some ch
      else firstInvalidChar rest
  end.

(** [parseLabels]: split on the dot (code unit 46), drop empty pieces. *)
Definition parseLabels (domain : jsstring) : list jsstring :=
  filter (fun label => JS.length label >? 0) (split 46%N domain).

Definition joinLabels (labels : list jsstring) : jsstring :=
  join (str ".") labels.

(** [indexToChar] *)
Definition indexToChar (index : Z) : Result jsstring :=
  if (index <? 0) || (index >=? JS.length WAVE_CHARS)
  then Throw (str "Invalid WAVE index: " ++ ofZ index ++ str " (must be 0-36)")
  else Ok (charAt WAVE_CHARS index).

(** [outputIndexToChar] *)
Definition outputIndexToChar (outputIndex : Z) : Result jsstring :=
  if (outputIndex <? 1) || (outputIndex >? 37)
  then Throw (str "Invalid branch output index: " ++ ofZ outputIndex
              ++ str " (must be 1-37)")
  else indexToChar (outputIndex - 1).

(** [estimateResolutionSize], for an [updateCount] with an integer
    value; [None] is an omitted [updateCount], which defaults to 0.
    Every product and sum is rounded as a double is. *)
Definition estimateResolutionSize (name : jsstring) (updateCount : option Z)
  : number :=
  let updateCount := match updateCount with Some n => Finite n | None => Finite 0 end in
  let baseSize := Finite 1024 in
  let pathLength := Finite (JS.length name) in
  let updateSize := numMul updateCount (Finite 500) in
  numAdd (numMul (numAdd pathLength (Finite 1)) baseSize) updateSize.

Section WithToLowerCase.

(** [String.prototype.toLowerCase] *)
Variable toLowerCase : jsstring -> jsstring.

(** [charToIndex] *)
Definition charToIndex (char : jsstring) : Result Z :=
  if negb (JS.length char =? 1)
  then Throw (str "Expected single character, got: "
              ++ dquote ++ char ++ dquote)
  else
    let idx := indexOf WAVE_CHARS (toLowerCase char) in
    if idx =? -1
    then Throw (str "Invalid WAVE character: " ++ dquote ++ char ++ dquote)
    else Ok idx.

(** [charToOutputIndex] *)
Definition charToOutputIndex (char : jsstring) : Result Z :=
  idx <- charToIndex char ;;
  Ok (idx + 1).

(** [validateWaveName] *)
Definition validateWaveName (name : jsstring) : Validation :=
  if falsy name || (JS.length name =? 0)
  then fail (str "Name cannot be empty")
  else if JS.length name >? MAX_NAME_LENGTH
  then fail (str "Name exceeds maximum length of " ++ ofZ MAX_NAME_LENGTH)
  else if startsWith name (str "-")
  then fail (str "Name cannot start with hyphen")
  else if endsWith name (str "-")
  then fail (str "Name cannot end with hyphen")
  else if includes name (str "--") && negb (startsWith name (str "xn--"))
  then fail (str "Name cannot contain consecutive hyphens (except Punycode prefix)")
  else
    let lowerName := toLowerCase name in
    match firstInvalidChar (codePoints lowerName) with
    | Some ch => fail (str "Invalid character: " ++ dquote ++ ch ++ dquote)
    | None => pass
    end.

(** [isPunycode] *)
Definition isPunycode (name : jsstring) : bool :=
  startsWith (toLowerCase name) (str "xn--").

(** The label loop of [validateDomain]: the first label the name
    validator rejects stops the function with its message. *)
Fixpoint firstInvalidLabel (labels : list jsstring) : option jsstring :=
  match labels with
  | [] => None
  | label :: rest =>
      let result := validateWaveName label in
      if negb (valid result)
      then Some (str "Invalid label " ++ dquote ++ label ++ dquote
                 ++ str ": " ++ render (error result))
      else firstInvalidLabel rest
  end.

(** [validateDomain] *)
Definition validateDomain (domain : jsstring) : Validation :=
  let labels := parseLabels domain in
  if Z.of_nat (List.length labels) =? 0
  then fail (str "Domain cannot be empty")
  else if Z.of_nat (List.length labels) >? MAX_SUBDOMAIN_DEPTH
  then fail (str "Domain exceeds maximum depth of " ++ ofZ MAX_SUBDOMAIN_DEPTH)
  else match firstInvalidLabel labels with
       | Some message => fail message
       | None => pass
       end.

(** [getCharacterPath] *)
Definition getCharacterPath (name : jsstring) : Result (list PathEntry) :=
  let validation := validateWaveName name in
  if negb (valid validation)
  then Throw (str "Invalid name: " ++ render (error validation))
  else
    mapM (fun char =>
            index <- charToIndex char ;;
            outputIndex <- charToOutputIndex char ;;
            Ok (mkPathEntry char index outputIndex))
         (splitUnits (toLowerCase name)).

Section Metadata.

(** [WaveZoneRecords]: the builder stores the object it is given
    and never looks inside; [emptyZone] is [{}]. *)
Variable Zone : Type.
Variable emptyZone : Zone.

(** [createWaveMetadata]; [None] for [zone] or [options] is an
    omitted argument, which defaults to [{}]. *)
Definition createWaveMetadata (name : jsstring) (parentRef : option jsstring)
           (zone : option Zone) (options : option WaveOptions)
  : Result (WaveMetadata Zone) :=
  let zone := match zone with Some z => z | None => emptyZone end in
  let options := match options with Some o => o | None => noOptions end in
  let validation := validateWaveName name in
  if negb (valid validation)
  then Throw (str "Invalid name: " ++ render (error validation))
  else
    let notImmutable :=
      match opt_mutable options with
      | Some false => false
      | _ => true
      end in
    let metadata :=
      mkWaveMetadata 2 TYPE
        (if notImmutable then WAVE_NAME else WAVE_NAME_IMMUTABLE)
        (Some name)
        None
        (mkWaveApp NAMESPACE VERSION
           (mkWaveNameData name parentRef None zone None))
        None in
    let metadata :=
      if truthy (opt_description options)
      then mkWaveMetadata (v metadata) (type metadata) (p metadata)
             (Wave.name metadata) (opt_description options)
             (app metadata) (mutable metadata)
      else metadata in
    let metadata :=
      if notImmutable
      then mkWaveMetadata (v metadata) (type metadata) (p metadata)
             (Wave.name metadata) (desc metadata) (app metadata)
             (Some (mkMutableBlock true
                      (if truthy (opt_controllerRef options)
                       then opt_controllerRef options else None)
                      [str "/app/data/zone"]))
      else metadata in
    Ok metadata.

End Metadata.

End WithToLowerCase.

Arguments createWaveMetadata toLowerCase {Zone} emptyZone name parentRef zone options.

(** Lowercasing that knows ASCII only: what [toLowerCase] does on a
    string of ASCII characters. *)
Definition asciiToLowerCase (s : jsstring) : jsstring :=
  map asciiLowerUnit s.

(** The standard zone records of [WaveZoneRecords] (custom [x-] keys aside). *)
Record StdZoneRecords : Type := mkStdZoneRecords {
  zone_address : option jsstring;
  zone_avatar : option jsstring;
  zone_display : option jsstring;
  zone_desc : option jsstring;
  zone_url : option jsstring;
  zone_email : option jsstring;
  zone_A : option jsstring;
  zone_AAAA : option jsstring;
  zone_CNAME : option jsstring;
  zone_TXT : option (list jsstring);
  zone_MX : option (list (Z * jsstring));
  zone_NS : option (list jsstring)
}.

Definition stdEmptyZone : StdZoneRecords :=
  mkStdZoneRecords None None None None None None None None None None None None.

(** What is checked, once, of each of the 37 symbols. *)
Definition symbolChecked (c : N) : bool :=
  (c <? 128)%N
  && (asciiLowerUnit c =? c)%N
  && (0 <=? indexOf WAVE_CHARS [c])
  && (indexOf WAVE_CHARS [c] <? 37)
  && match charAt WAVE_CHARS (indexOf WAVE_CHARS [c]) with
     | [d] => (d =? c)%N
     | _ => false
     end.

(** What is checked, once, of each of the 37 positions. *)
Definition positionChecked (n : nat) : bool :=
  match charAt WAVE_CHARS (Z.of_nat n) with
  | [c] => existsb (N.eqb c) WAVE_CHARS
           && (indexOf WAVE_CHARS [c] =? Z.of_nat n)
  | _ => false
  end.

(** The entry [getCharacterPath] makes for one alphabet symbol. *)
Definition entryOf (u : N) : PathEntry :=
  mkPathEntry [u] (indexOf WAVE_CHARS [u]) (indexOf WAVE_CHARS [u] + 1).

End Wave.

(** ** flags.ts: script verification flags *)

Module Flags.

Open Scope Z_scope.

(** ToInt32, the conversion the bitwise operators apply to each
    operand: the value modulo 2^32, read as a signed 32-bit integer. *)
Definition toInt32 (x : Z) : Z :=
  let int32bit := x mod 2 ^ 32 in
  if int32bit >=? 2 ^ 31 then int32bit - 2 ^ 32 else int32bit.

(** [a & b] *)
Definition bitAnd (a b : Z) : Z := Z.land (toInt32 a) (toInt32 b).

(** [a | b] *)
Definition bitOr (a b : Z) : Z := Z.lor (toInt32 a) (toInt32 b).

(** [~a] *)
Definition bitNot (a : Z) : Z := Z.lnot (toInt32 a).

(** [a << n]: the shift count is taken modulo 32. *)
Definition shiftLeft (a n : Z) : Z :=
  toInt32 (Z.shiftl (toInt32 a) (n mod 32)).

(** [Object.entries(ScriptFlags)], in declaration order. *)
Definition ScriptFlags : list (string * Z) :=
  [ ("SCRIPT_VERIFY_NONE"%string, 0);
    ("SCRIPT_VERIFY_P2SH"%string, shiftLeft 1 0);
    ("SCRIPT_VERIFY_STRICTENC"%string, shiftLeft 1 1);
    ("SCRIPT_VERIFY_DERSIG"%string, shiftLeft 1 2);
    ("SCRIPT_VERIFY_LOW_S"%string, shiftLeft 1 3);
    ("SCRIPT_VERIFY_SIGPUSHONLY"%string, shiftLeft 1 5);
    ("SCRIPT_VERIFY_MINIMALDATA"%string, shiftLeft 1 6);
    ("SCRIPT_VERIFY_DISCOURAGE_UPGRADABLE_NOPS"%string, shiftLeft 1 7);
    ("SCRIPT_VERIFY_CLEANSTACK"%string, shiftLeft 1 8);
    ("SCRIPT_VERIFY_CHECKLOCKTIMEVERIFY"%string, shiftLeft 1 9);
    ("SCRIPT_VERIFY_CHECKSEQUENCEVERIFY"%string, shiftLeft 1 10);
    ("SCRIPT_VERIFY_MINIMALIF"%string, shiftLeft 1 13);
    ("SCRIPT_VERIFY_NULLFAIL"%string, shiftLeft 1 14);
    ("SCRIPT_ENABLE_SIGHASH_FORKID"%string, shiftLeft 1 16);
    ("SCRIPT_DISALLOW_SEGWIT_RECOVERY"%string, shiftLeft 1 20);
    ("SCRIPT_ENABLE_SCHNORR_MULTISIG"%string, shiftLeft 1 21);
    ("SCRIPT_VERIFY_INPUT_SIGCHECKS"%string, shiftLeft 1 22);
    ("SCRIPT_ENFORCE_SIGCHECKS"%string, shiftLeft 1 23);
    ("SCRIPT_64_BIT_INTEGERS"%string, shiftLeft 1 24);
    ("SCRIPT_NATIVE_INTROSPECTION"%string, shiftLeft 1 25);
    ("SCRIPT_ENHANCED_REFERENCES"%string, shiftLeft 1 26);
    ("SCRIPT_PUSH_TX_STATE"%string, shiftLeft 1 27) ].

(** [hasFlag] *)
Definition hasFlag (flags flag : Z) : bool :=
  negb (bitAnd flags flag =? 0).

(** [setFlag] *)
Definition setFlag (flags flag : Z) : Z := bitOr flags flag.

(** [clearFlag] *)
Definition clearFlag (flags flag : Z) : Z := bitAnd flags (bitNot flag).

(** [getFlagNames] *)
Definition getFlagNames (flags : Z) : list string :=
  map fst
      (filter (fun entry =>
                 negb (snd entry =? 0) && (bitAnd flags (snd entry) =? snd entry))
              ScriptFlags).

(** The test that decides whether a number is one bit of a 31-bit word. *)
Definition singleBit (value : Z) : bool :=
  existsb (fun k => value =? 2 ^ Z.of_nat k) (seq 0 31).

End Flags.

(** ** opcodes.ts: the opcode classes *)

Module Opcodes.

Open Scope Z_scope.

Definition OP_CAT : Z := 0x7e.
Definition OP_SPLIT : Z := 0x7f.
Definition OP_NUM2BIN : Z := 0x80.
Definition OP_BIN2NUM : Z := 0x81.
Definition OP_INVERT : Z := 0x83.
Definition OP_AND : Z := 0x84.
Definition OP_OR : Z := 0x85.
Definition OP_XOR : Z := 0x86.
Definition OP_2MUL : Z := 0x8d.
Definition OP_2DIV : Z := 0x8e.
Definition OP_MUL : Z := 0x95.
Definition OP_DIV : Z := 0x96.
Definition OP_MOD : Z := 0x97.
Definition OP_LSHIFT : Z := 0x98.
Definition OP_RSHIFT : Z := 0x99.
Definition OP_CHECKDATASIG : Z := 0xba.
Definition OP_CHECKDATASIGVERIFY : Z := 0xbb.
Definition OP_REVERSEBYTES : Z := 0xbc.

(** [isRadiantOpcode] *)
Definition isRadiantOpcode (opcode : Z) : bool :=
  ((opcode >=? 0xbd) && (opcode <=? 0xed))
  || (opcode =? OP_CHECKDATASIG)
  || (opcode =? OP_CHECKDATASIGVERIFY)
  || (opcode =? OP_REVERSEBYTES).

(** [isIntrospectionOpcode] *)
Definition isIntrospectionOpcode (opcode : Z) : bool :=
  (opcode >=? 0xc0) && (opcode <=? 0xcd).

(** [isReferenceOpcode] *)
Definition isReferenceOpcode (opcode : Z) : bool :=
  (opcode >=? 0xd0) && (opcode <=? 0xed).

(** [isStateSeparatorOpcode] *)
Definition isStateSeparatorOpcode (opcode : Z) : bool :=
  (opcode >=? 0xbd) && (opcode <=? 0xbf).

(** [isPushOpcode] *)
Definition isPushOpcode (opcode : Z) : bool :=
  opcode <=? 0x4e.

(** [isReenabledOpcode] *)
Definition isReenabledOpcode (opcode : Z) : bool :=
  let reenabledOpcodes :=
    [ OP_CAT; OP_SPLIT; OP_AND; OP_OR; OP_XOR; OP_DIV; OP_MOD; OP_MUL;
      OP_NUM2BIN; OP_BIN2NUM; OP_INVERT; OP_2MUL; OP_2DIV; OP_LSHIFT;
      OP_RSHIFT ] in
  arrIncludes reenabledOpcodes opcode.

End Opcodes.

(* ================================================================== *)
(** * Part II: properties                                              *)
(* ================================================================== *)

(** ** The protocol-combination validator *)

Section GlyphFacts.

Import Glyph.
Open Scope Z_scope.

Lemma arrIncludes_In (arr : list Z) (x : Z) :
  arrIncludes arr x = true <-> In x arr.
Proof.
  unfold arrIncludes. rewrite existsb_exists. split.
  - intros [y [Hy Heq]]. apply Z.eqb_eq in Heq. now subst.
  - intros H. exists x. split; [assumption | apply Z.eqb_refl].
Qed.

(** Membership tests see a list only through its set of elements. *)
Lemma arrIncludes_ext (l l' : list Z) :
  (forall x, In x l <-> In x l') ->
  forall x, arrIncludes l x = arrIncludes l' x.
Proof.
  intros Hext x. apply eq_true_iff_eq.
  rewrite !arrIncludes_In. apply Hext.
Qed.

Lemma checkRequired_None protocol requirements protocols :
  checkRequired protocol requirements protocols = None <->
  forallb (arrIncludes protocols) requirements = true.
Proof.
  induction requirements as [| r rest IH]; simpl.
  - tauto.
  - destruct (arrIncludes protocols r); simpl.
    + exact IH.
    + split; discriminate.
Qed.

Lemma checkRequirements_None todo protocols :
  checkRequirements todo protocols = None <->
  forallb (requirementsMet protocols) todo = true.
Proof.
  induction todo as [| q rest IH]; simpl.
  - tauto.
  - unfold requirementsMet at 1.
    destruct (PROTOCOL_REQUIREMENTS q) as [reqs |]; simpl.
    + pose proof (checkRequired_None q reqs protocols) as Hreq.
      destruct (checkRequired q reqs protocols) as [msg |].
      * destruct (forallb (arrIncludes protocols) reqs); simpl.
        -- destruct Hreq as [_ Hreq]. specialize (Hreq eq_refl). discriminate.
        -- split; discriminate.
      * destruct Hreq as [Hreq _]. rewrite (Hreq eq_refl). simpl. exact IH.
    + exact IH.
Qed.

(** A modifier standing alone is already refused by the requirement
    loop or by the Burn check: the length-one check adds a message,
    not a rejection. *)
Lemma aloneNeedsBase_redundant protocols only :
  aloneNeedsBase protocols = Some only ->
  forallb (requirementsMet protocols) protocols = true ->
  burnWithoutBase protocols = true.
Proof.
  destruct protocols as [| x [| y rest]]; try discriminate.
  unfold aloneNeedsBase.
  destruct (arrIncludes PROTOCOLS_REQUIRE_BASE x) eqn:Hbase; try discriminate.
  intros _ Hreq.
  apply arrIncludes_In in Hbase. simpl in Hbase.
  unfold GLYPH_DMINT, GLYPH_MUT, GLYPH_BURN, GLYPH_CONTAINER,
    GLYPH_ENCRYPTED, GLYPH_TIMELOCK, GLYPH_AUTHORITY, GLYPH_WAVE in Hbase.
  destruct Hbase as [H | [H | [H | [H | [H | [H | [H | [H | []]]]]]]]];
    subst x; vm_compute in Hreq; try discriminate Hreq; reflexivity.
Qed.

Lemma validateProtocols_acceptable protocols :
  valid (validateProtocols protocols) = acceptable protocols.
Proof.
  unfold validateProtocols, acceptable. simpl checkExclusions.
  destruct (arrIncludes protocols GLYPH_FT && arrIncludes protocols GLYPH_NFT)
    eqn:Hexcl; [reflexivity |].
  simpl negb at 1. rewrite andb_true_l.
  pose proof (checkRequirements_None protocols protocols) as Hreq.
  destruct (checkRequirements protocols protocols) as [msg |].
  - destruct (forallb (requirementsMet protocols) protocols); [| reflexivity].
    destruct Hreq as [_ Hreq]. specialize (Hreq eq_refl). discriminate.
  - destruct Hreq as [Hreq _]. specialize (Hreq eq_refl). rewrite Hreq.
    rewrite andb_true_l.
    destruct (aloneNeedsBase protocols) as [only |] eqn:Halone.
    + rewrite (aloneNeedsBase_redundant protocols only Halone Hreq). reflexivity.
    + unfold burnWithoutBase.
      destruct (arrIncludes protocols GLYPH_BURN); [| reflexivity].
      rewrite andb_true_l.
      destruct (negb (arrIncludes protocols GLYPH_FT)
                && negb (arrIncludes protocols GLYPH_NFT)); reflexivity.
Qed.

Lemma requirementsMet_ext (l l' : list Z) :
  (forall x, In x l <-> In x l') ->
  forall q, requirementsMet l q = requirementsMet l' q.
Proof.
  intros Hext q. unfold requirementsMet.
  destruct (PROTOCOL_REQUIREMENTS q) as [reqs |]; [| reflexivity].
  apply eq_true_iff_eq. rewrite !forallb_forall.
  split; intros H r Hr; [rewrite <- (arrIncludes_ext l l' Hext) | rewrite (arrIncludes_ext l l' Hext)];
    now apply H.
Qed.

Lemma acceptable_ext (l l' : list Z) :
  (forall x, In x l <-> In x l') ->
  acceptable l = acceptable l'.
Proof.
  intros Hext. unfold acceptable, burnWithoutBase.
  rewrite !(arrIncludes_ext l l' Hext).
  f_equal. f_equal.
  apply eq_true_iff_eq. rewrite !forallb_forall. split; intros H q Hq.
  - rewrite <- (requirementsMet_ext l l' Hext). apply H. now apply Hext.
  - rewrite (requirementsMet_ext l l' Hext). apply H. now apply Hext.
Qed.

(** The validator's verdict depends on the set of ids only. *)
Lemma validateProtocols_valid_ext (l l' : list Z) :
  (forall x, In x l <-> In x l') ->
  valid (validateProtocols l) = valid (validateProtocols l').
Proof.
  intros Hext. rewrite !validateProtocols_acceptable. now apply acceptable_ext.
Qed.

Lemma dedup_In (l : list Z) (x : Z) : In x (dedup l) <-> In x l.
Proof.
  induction l as [| y rest IH]; simpl.
  - tauto.
  - rewrite filter_In, IH. split.
    + intros [H | [H _]]; auto.
    + intros [H | H]; auto.
      destruct (Z.eq_dec y x) as [Heq | Hneq]; auto.
      right. split; auto. apply negb_true_iff, Z.eqb_neq. congruence.
Qed.

(** [dedup] does remove every duplicate. *)
Lemma dedup_NoDup (l : list Z) : NoDup (dedup l).
Proof.
  induction l as [| y rest IH]; simpl.
  - constructor.
  - constructor.
    + rewrite filter_In. intros [_ H].
      rewrite Z.eqb_refl in H. discriminate.
    + now apply NoDup_filter.
Qed.

(** C3. Every list of protocol ids that contains Burn (6) and contains
    neither Fungible (1) nor Non-Fungible (2) is rejected by
    [validateProtocols], whatever else it contains. *)
Theorem validateProtocols_burn_needs_base (protocols : list Z) :
  In GLYPH_BURN protocols ->
  ~ In GLYPH_FT protocols ->
  ~ In GLYPH_NFT protocols ->
  valid (validateProtocols protocols) = false.
Proof.
  intros Hburn Hft Hnft.
  apply arrIncludes_In in Hburn.
  assert (arrIncludes protocols GLYPH_FT = false) as Hft'
      by (apply not_true_is_false; now rewrite arrIncludes_In).
  assert (arrIncludes protocols GLYPH_NFT = false) as Hnft'
      by (apply not_true_is_false; now rewrite arrIncludes_In).
  unfold validateProtocols.
  destruct (checkExclusions PROTOCOL_EXCLUSIONS protocols); [reflexivity |].
  destruct (checkRequirements protocols protocols); [reflexivity |].
  destruct (aloneNeedsBase protocols); [reflexivity |].
  rewrite Hburn, Hft', Hnft'. reflexivity.
Qed.

(** C4. Duplicate ids never change the verdict: for every list [l],
    [validateProtocols l] and [validateProtocols (dedup l)] agree on
    [valid]. *)
Theorem validateProtocols_dedup (l : list Z) :
  valid (validateProtocols l) = valid (validateProtocols (dedup l)).
Proof.
  apply validateProtocols_valid_ext. intros x. symmetry. apply dedup_In.
Qed.

End GlyphFacts.

(** ** JavaScript string operations *)

Section JSFacts.

Open Scope Z_scope.

Lemma startsWith_unit (s : jsstring) (u : N) :
  startsWith s [u] = true <-> exists rest, s = u :: rest.
Proof.
  destruct s as [| c rest]; simpl.
  - split; [discriminate | intros [r Hr]; discriminate].
  - rewrite andb_true_r, N.eqb_eq. split.
    + intros ->. now exists rest.
    + intros [r Hr]. congruence.
Qed.

(** A substring test for a one-unit string is a membership test. *)
Lemma includes_unit (s : jsstring) (u : N) :
  includes s [u] = true <-> In u s.
Proof.
  induction s as [| c rest IH].
  - simpl. split; [discriminate | tauto].
  - change (includes (c :: rest) [u])
      with (startsWith (c :: rest) [u] || includes rest [u]).
    rewrite orb_true_iff, IH, startsWith_unit. simpl. split.
    + intros [[r Hr] | H]; [left; congruence | now right].
    + intros [-> | H]; [left; now exists rest | now right].
Qed.

(** A string that occurs in [s] starts with a unit of [s]. *)
Lemma includes_head (s : jsstring) (u : N) (more : jsstring) :
  includes s (u :: more) = true -> In u s.
Proof.
  induction s as [| c rest IH].
  - simpl. discriminate.
  - change (includes (c :: rest) (u :: more))
      with (startsWith (c :: rest) (u :: more) || includes rest (u :: more)).
    rewrite orb_true_iff. simpl. intros [H | H].
    + apply andb_true_iff in H. destruct H as [H _].
      apply N.eqb_eq in H. now left.
    + right. now apply IH.
Qed.

Lemma length_nonneg (s : jsstring) : 0 <= JS.length s.
Proof. unfold JS.length. lia. Qed.

Lemma length_unit_inv (s : jsstring) :
  JS.length s = 1 -> exists u, s = [u].
Proof.
  unfold JS.length. destruct s as [| u [| w rest]]; simpl; intros H; try lia.
  now exists u.
Qed.

(** [split] cuts at every separator and nowhere else: the pieces hold
    no separator and joining them gives the string back. *)
Lemma split_nonempty (sep : N) (s : jsstring) : split sep s <> [].
Proof.
  destruct s as [| c rest]; simpl; [discriminate |].
  destruct (c =? sep)%N; [discriminate |].
  destruct (split sep rest); discriminate.
Qed.

Lemma split_pieces (sep : N) (s : jsstring) :
  Forall (fun piece => ~ In sep piece) (split sep s).
Proof.
  induction s as [| c rest IH]; simpl.
  - constructor; [tauto | constructor].
  - destruct (c =? sep)%N eqn:Hc.
    + constructor; [tauto | exact IH].
    + destruct (split sep rest) as [| piece more].
      * constructor; [| constructor].
        simpl. apply N.eqb_neq in Hc. intros [H | []]. congruence.
      * inversion IH as [| ? ? Hpiece Hmore]; subst.
        constructor; [| exact Hmore].
        simpl. apply N.eqb_neq in Hc. intros [H | H]; [congruence | tauto].
Qed.

Lemma split_join (sep : N) (s : jsstring) :
  join [sep] (split sep s) = s.
Proof.
  induction s as [| c rest IH]; simpl.
  - reflexivity.
  - pose proof (split_nonempty sep rest) as Hne.
    destruct (c =? sep)%N eqn:Hc.
    + apply N.eqb_eq in Hc. subst c.
      destruct (split sep rest) as [| piece more]; [congruence |].
      simpl in *. now rewrite IH.
    + destruct (split sep rest) as [| piece more]; [congruence |].
      destruct more as [| piece' more']; simpl in *; now rewrite <- IH.
Qed.

End JSFacts.

(** ** The WAVE alphabet *)

Section AlphabetFacts.

Import Wave.
Open Scope Z_scope.

Lemma WAVE_CHARS_length : JS.length WAVE_CHARS = 37.
Proof. reflexivity. Qed.

Lemma WAVE_CHARS_symbols (c : N) :
  In c WAVE_CHARS ->
  (c < 128)%N /\ asciiLowerUnit c = c /\
  0 <= indexOf WAVE_CHARS [c] < 37 /\
  charAt WAVE_CHARS (indexOf WAVE_CHARS [c]) = [c].
Proof.
  intros Hc.
  assert (forallb symbolChecked WAVE_CHARS = true) as Hall by (vm_compute; reflexivity).
  rewrite forallb_forall in Hall. specialize (Hall c Hc).
  unfold symbolChecked in Hall.
  repeat (apply andb_true_iff in Hall; destruct Hall as [Hall ?]).
  destruct (charAt WAVE_CHARS (indexOf WAVE_CHARS [c])) as [| d [| ? ?]];
    try discriminate.
  repeat split.
  - now apply N.ltb_lt.
  - now apply N.eqb_eq.
  - now apply Z.leb_le.
  - now apply Z.ltb_lt.
  - f_equal. now apply N.eqb_eq.
Qed.

Lemma WAVE_CHARS_positions (i : Z) :
  0 <= i < 37 ->
  exists c, charAt WAVE_CHARS i = [c] /\ In c WAVE_CHARS
            /\ indexOf WAVE_CHARS [c] = i.
Proof.
  intros Hi.
  assert (forallb positionChecked (seq 0 37) = true) as Hall by (vm_compute; reflexivity).
  rewrite forallb_forall in Hall.
  specialize (Hall (Z.to_nat i)).
  assert (In (Z.to_nat i) (seq 0 37)) as Hin by (apply in_seq; lia).
  specialize (Hall Hin). unfold positionChecked in Hall.
  rewrite Z2Nat.id in Hall by lia.
  destruct (charAt WAVE_CHARS i) as [| c [| ? ?]]; try discriminate.
  apply andb_true_iff in Hall. destruct Hall as [Hmem Hidx].
  exists c. repeat split.
  - apply existsb_exists in Hmem. destruct Hmem as [d [Hd Heq]].
    apply N.eqb_eq in Heq. now subst.
  - now apply Z.eqb_eq.
Qed.

(** A check that decides whether a string is written in the alphabet. *)
Lemma Forall_symbols_check (s : jsstring) :
  forallb (fun u => existsb (N.eqb u) WAVE_CHARS) s = true ->
  Forall (fun u => In u WAVE_CHARS) s.
Proof.
  rewrite forallb_forall, Forall_forall. intros H u Hu.
  specialize (H u Hu). apply existsb_exists in H.
  destruct H as [c [Hc Heq]]. apply N.eqb_eq in Heq. now subst.
Qed.

End AlphabetFacts.

(** ** The WAVE codec, validators and builders *)

Section WaveFacts.

Import Wave.
Open Scope Z_scope.

Variable toLowerCase : jsstring -> jsstring.

(** What ECMAScript fixes for ASCII input: each of A-Z becomes a-z and
    every other ASCII character stays. *)
Hypothesis toLowerCase_ascii :
  forall s, Forall isAscii s -> toLowerCase s = map asciiLowerUnit s.

Lemma toLowerCase_symbol (c : N) :
  In c WAVE_CHARS -> toLowerCase [c] = [c].
Proof.
  intros Hc. destruct (WAVE_CHARS_symbols c Hc) as [Hlt [Hlow _]].
  rewrite toLowerCase_ascii.
  - simpl. now rewrite Hlow.
  - constructor; [exact Hlt | constructor].
Qed.

(** On a string whose lowercase form is one symbol of the alphabet,
    [charToIndex] returns that symbol's position. *)
Lemma charToIndex_lower (ch : jsstring) (c : N) :
  JS.length ch = 1 ->
  toLowerCase ch = [c] ->
  In c WAVE_CHARS ->
  charToIndex toLowerCase ch = Ok (indexOf WAVE_CHARS [c]).
Proof.
  intros Hlen Hlow Hc. unfold charToIndex.
  rewrite Hlen, Hlow. simpl negb. cbv iota.
  destruct (WAVE_CHARS_symbols c Hc) as [_ [_ [Hidx _]]].
  destruct (indexOf WAVE_CHARS [c] =? -1) eqn:Hneg; [| reflexivity].
  apply Z.eqb_eq in Hneg. lia.
Qed.

Lemma charToIndex_symbol (c : N) :
  In c WAVE_CHARS ->
  charToIndex toLowerCase [c] = Ok (indexOf WAVE_CHARS [c]).
Proof.
  intros Hc. apply charToIndex_lower; auto using toLowerCase_symbol.
Qed.

Lemma outputIndexToChar_in_range (i : Z) :
  1 <= i <= 37 ->
  outputIndexToChar i = Ok (charAt WAVE_CHARS (i - 1)).
Proof.
  intros Hi. unfold outputIndexToChar, indexToChar.
  rewrite WAVE_CHARS_length.
  replace (i <? 1) with false by (symmetry; apply Z.ltb_ge; lia).
  replace (i >? 37) with false by (symmetry; rewrite Z.gtb_ltb; apply Z.ltb_ge; lia).
  replace (i - 1 <? 0) with false by (symmetry; apply Z.ltb_ge; lia).
  replace (i - 1 >=? 37) with false by (symmetry; rewrite Z.geb_leb; apply Z.leb_gt; lia).
  reflexivity.
Qed.

(** C5. The codec functions are inverse to each other on their valid
    domains: for every integer [i] in [1,37],
    [charToOutputIndex (outputIndexToChar i)] is [i]; and for every
    one-character string [ch] whose lowercase form is a symbol of the
    37-symbol alphabet, [outputIndexToChar (charToOutputIndex ch)] is
    that lowercase form. *)
Theorem codec_round_trip :
  (forall i : Z, 1 <= i <= 37 ->
     (ch <- outputIndexToChar i ;; charToOutputIndex toLowerCase ch) = Ok i)
  /\
  (forall ch : jsstring, JS.length ch = 1 ->
     (exists c, toLowerCase ch = [c] /\ In c WAVE_CHARS) ->
     (i <- charToOutputIndex toLowerCase ch ;; outputIndexToChar i)
     = Ok (toLowerCase ch)).
Proof.
  split.
  - intros i Hi. rewrite outputIndexToChar_in_range by exact Hi.
    destruct (WAVE_CHARS_positions (i - 1)) as [c [Hat [Hc Hidx]]]; [lia |].
    rewrite Hat. simpl bind. unfold charToOutputIndex.
    rewrite charToIndex_symbol by exact Hc. simpl. rewrite Hidx.
    f_equal. lia.
  - intros ch Hlen [c [Hlow Hc]]. unfold charToOutputIndex.
    rewrite (charToIndex_lower ch c Hlen Hlow Hc). simpl bind.
    destruct (WAVE_CHARS_symbols c Hc) as [_ [_ [Hidx Hat]]].
    rewrite outputIndexToChar_in_range by lia.
    replace (indexOf WAVE_CHARS [c] + 1 - 1) with (indexOf WAVE_CHARS [c]) by lia.
    now rewrite Hat, Hlow.
Qed.

Lemma Forall_isAscii_check (s : jsstring) :
  forallb (fun u => (u <? 128)%N) s = true -> Forall isAscii s.
Proof.
  rewrite forallb_forall, Forall_forall. intros H u Hu.
  apply N.ltb_lt. now apply H.
Qed.

(** On ASCII names the validator is the one that lowercases ASCII. *)
Lemma validateWaveName_ascii (name : jsstring) :
  Forall isAscii name ->
  validateWaveName toLowerCase name = validateWaveName asciiToLowerCase name.
Proof.
  intros Hascii. unfold validateWaveName.
  now rewrite (toLowerCase_ascii name Hascii).
Qed.

Lemma isPunycode_ascii (name : jsstring) :
  Forall isAscii name ->
  isPunycode toLowerCase name = isPunycode asciiToLowerCase name.
Proof.
  intros Hascii. unfold isPunycode.
  now rewrite (toLowerCase_ascii name Hascii).
Qed.

Lemma validateWaveName_too_long (name : jsstring) :
  JS.length name > MAX_NAME_LENGTH ->
  validateWaveName toLowerCase name
  = fail (str "Name exceeds maximum length of 63").
Proof.
  intros Hlen. unfold validateWaveName.
  destruct name as [| u rest]; [unfold JS.length, MAX_NAME_LENGTH in Hlen; simpl in Hlen; lia |].
  simpl falsy. rewrite orb_false_l.
  replace (JS.length (u :: rest) =? 0) with false
    by (symmetry; apply Z.eqb_neq; unfold MAX_NAME_LENGTH in Hlen; lia).
  replace (JS.length (u :: rest) >? MAX_NAME_LENGTH) with true
    by (symmetry; rewrite Z.gtb_ltb; apply Z.ltb_lt; lia).
  reflexivity.
Qed.

(** A name that is accepted went through the character loop. *)
Lemma validateWaveName_valid_inv (name : jsstring) :
  valid (validateWaveName toLowerCase name) = true ->
  firstInvalidChar (codePoints (toLowerCase name)) = None.
Proof.
  unfold validateWaveName.
  destruct (falsy name || (JS.length name =? 0)); [discriminate |].
  destruct (JS.length name >? MAX_NAME_LENGTH); [discriminate |].
  destruct (startsWith name (str "-")); [discriminate |].
  destruct (endsWith name (str "-")); [discriminate |].
  destruct (includes name (str "--") && negb (startsWith name (str "xn--")));
    [discriminate |].
  cbv zeta.
  destruct (firstInvalidChar (codePoints (toLowerCase name))); [discriminate |].
  reflexivity.
Qed.

Lemma codePoints_cons2 (u w : N) (t : jsstring) :
  codePoints (u :: w :: t)
  = if isHighSurrogate u && isLowSurrogate w
    then [u; w] :: codePoints t
    else [u] :: codePoints (w :: t).
Proof. reflexivity. Qed.

(** A string of alphabet symbols goes through the character loop. *)
Lemma firstInvalidChar_symbols (s : jsstring) :
  Forall (fun u => In u WAVE_CHARS) s ->
  firstInvalidChar (codePoints s) = None.
Proof.
  induction 1 as [| u rest Hu Hrest IH].
  - reflexivity.
  - assert (includes WAVE_CHARS [u] = true) as Hinc by now apply includes_unit.
    destruct rest as [| w t].
    + cbn [codePoints firstInvalidChar]. now rewrite Hinc.
    + rewrite codePoints_cons2.
      destruct (WAVE_CHARS_symbols u Hu) as [Hlt _].
      assert (isHighSurrogate u = false) as Hhigh.
      { unfold isHighSurrogate.
        replace (55296 <=? u)%N with false by (symmetry; apply N.leb_gt; lia).
        reflexivity. }
      rewrite Hhigh. simpl andb. cbv iota.
      cbn [firstInvalidChar]. rewrite Hinc. exact IH.
Qed.

(** Lowercasing leaves a string of alphabet symbols as it is. *)
Lemma toLowerCase_symbols (s : jsstring) :
  Forall (fun u => In u WAVE_CHARS) s -> toLowerCase s = s.
Proof.
  intros Hsym. rewrite toLowerCase_ascii.
  - induction Hsym as [| u rest Hu Hrest IH]; [reflexivity |].
    simpl. destruct (WAVE_CHARS_symbols u Hu) as [_ [Hlow _]].
    now rewrite Hlow, IH.
  - revert Hsym. apply Forall_impl. intros u Hu.
    now destruct (WAVE_CHARS_symbols u Hu) as [Hlt _].
Qed.

(** The names the validator accepts, among those written in the alphabet. *)
Lemma validateWaveName_accepts (name : jsstring) :
  name <> [] ->
  JS.length name <= MAX_NAME_LENGTH ->
  Forall (fun u => In u WAVE_CHARS) name ->
  startsWith name (str "-") = false ->
  endsWith name (str "-") = false ->
  (includes name (str "--") = true -> startsWith name (str "xn--") = true) ->
  validateWaveName toLowerCase name = pass.
Proof.
  intros Hne Hlen Hsym Hstart Hend Hdouble. unfold validateWaveName.
  destruct name as [| u rest]; [congruence |].
  simpl falsy. rewrite orb_false_l.
  replace (JS.length (u :: rest) =? 0) with false
    by (symmetry; apply Z.eqb_neq; unfold JS.length; simpl List.length; lia).
  replace (JS.length (u :: rest) >? MAX_NAME_LENGTH) with false
    by (symmetry; rewrite Z.gtb_ltb; apply Z.ltb_ge; lia).
  rewrite Hstart, Hend.
  assert (includes (u :: rest) (str "--")
          && negb (startsWith (u :: rest) (str "xn--")) = false) as Hrule.
  { destruct (includes (u :: rest) (str "--")); [| reflexivity].
    now rewrite Hdouble. }
  rewrite Hrule. cbv zeta.
  rewrite (toLowerCase_symbols (u :: rest) Hsym).
  now rewrite (firstInvalidChar_symbols (u :: rest) Hsym).
Qed.

(** What the code does for a name with two hyphens in a row: the
    prefix test is made on the name as written. *)
Lemma validateWaveName_consecutive_hyphens (name : jsstring) :
  name <> [] ->
  JS.length name <= MAX_NAME_LENGTH ->
  startsWith name (str "-") = false ->
  endsWith name (str "-") = false ->
  includes name (str "--") = true ->
  (validateWaveName toLowerCase name
   = fail (str "Name cannot contain consecutive hyphens (except Punycode prefix)")
   <-> startsWith name (str "xn--") = false).
Proof.
  intros Hne Hlen Hstart Hend Hinc. unfold validateWaveName.
  destruct name as [| u rest]; [congruence |].
  simpl falsy. rewrite orb_false_l.
  replace (JS.length (u :: rest) =? 0) with false
    by (symmetry; apply Z.eqb_neq; unfold JS.length; simpl List.length; lia).
  replace (JS.length (u :: rest) >? MAX_NAME_LENGTH) with false
    by (symmetry; rewrite Z.gtb_ltb; apply Z.ltb_ge; lia).
  rewrite Hstart, Hend, Hinc, andb_true_l.
  destruct (startsWith (u :: rest) (str "xn--")); simpl negb; cbv iota zeta.
  - split; [| discriminate].
    destruct (firstInvalidChar (codePoints (toLowerCase (u :: rest)))) as [ch |];
      intros H; vm_compute in H; discriminate H.
  - split; reflexivity.
Qed.

(** C7. [validateWaveName] enforces the 63-character limit: every
    (non-empty) string longer than 63 is rejected with the
    maximum-length error; a string of exactly 63 characters drawn from
    the alphabet that keeps the hyphen-placement rules is accepted, the
    name made of 63 times "a" among them. *)
Theorem validateWaveName_length_limit :
  (forall name : jsstring, JS.length name > 63 ->
     validateWaveName toLowerCase name
     = fail (str "Name exceeds maximum length of 63"))
  /\ (forall name : jsstring,
        JS.length name = 63 ->
        Forall (fun u => In u WAVE_CHARS) name ->
        startsWith name (str "-") = false ->
        endsWith name (str "-") = false ->
        (includes name (str "--") = true -> startsWith name (str "xn--") = true) ->
        validateWaveName toLowerCase name = pass)
  /\ JS.length (repeat 97%N 63) = 63
  /\ validateWaveName toLowerCase (repeat 97%N 63) = pass.
Proof.
  split; [| split; [| split]].
  - intros name Hlen. now apply validateWaveName_too_long.
  - intros name Hlen Hsym Hstart Hend Hdouble.
    apply validateWaveName_accepts; try assumption.
    + intros ->. discriminate Hlen.
    + rewrite Hlen. unfold MAX_NAME_LENGTH. lia.
  - reflexivity.
  - rewrite validateWaveName_ascii.
    + vm_compute. reflexivity.
    + apply Forall_isAscii_check. vm_compute. reflexivity.
Qed.

(** C1, on the code.  The name "XN--WGV71A" passes the empty, length
    and boundary-hyphen rules, holds "--", and its lowercase form
    starts with "xn--" ([isPunycode] says so); [validateWaveName]
    nevertheless returns the consecutive-hyphens error, because it
    tests the prefix on the name as written. *)
Theorem validateWaveName_uppercase_punycode :
  let name := str "XN--WGV71A" in
  includes name (str "--") = true
  /\ startsWith (toLowerCase name) (str "xn--") = true
  /\ isPunycode toLowerCase name = true
  /\ validateWaveName toLowerCase name
     = fail (str "Name cannot contain consecutive hyphens (except Punycode prefix)")
  /\ valid (validateWaveName toLowerCase (toLowerCase name)) = true.
Proof.
  intros name.
  assert (Forall isAscii name) as Hascii
      by (apply Forall_isAscii_check; vm_compute; reflexivity).
  assert (toLowerCase name = str "xn--wgv71a") as Hlow
      by (rewrite (toLowerCase_ascii name Hascii); vm_compute; reflexivity).
  repeat split.
  - unfold isPunycode. rewrite Hlow. vm_compute. reflexivity.
  - unfold isPunycode. rewrite Hlow. vm_compute. reflexivity.
  - rewrite Hlow, validateWaveName_ascii.
    + vm_compute. reflexivity.
    + apply Forall_isAscii_check. vm_compute. reflexivity.
Qed.

(** The label loop stops at the first rejected label. *)
Lemma firstInvalidLabel_None (labels : list jsstring) :
  firstInvalidLabel toLowerCase labels = None <->
  Forall (fun label => valid (validateWaveName toLowerCase label) = true) labels.
Proof.
  induction labels as [| label rest IH]; simpl.
  - split; [constructor | reflexivity].
  - destruct (valid (validateWaveName toLowerCase label)) eqn:Hv; simpl.
    + rewrite IH. split.
      * intros H. now constructor.
      * intros H. now inversion H.
    + split; [discriminate |]. intros H. inversion H. congruence.
Qed.

Lemma firstInvalidLabel_first (pre : list jsstring) (label : jsstring)
      (post : list jsstring) :
  Forall (fun l => valid (validateWaveName toLowerCase l) = true) pre ->
  valid (validateWaveName toLowerCase label) = false ->
  firstInvalidLabel toLowerCase (pre ++ label :: post)
  = Some (str "Invalid label " ++ dquote ++ label ++ dquote ++ str ": "
          ++ render (error (validateWaveName toLowerCase label))).
Proof.
  intros Hpre Hbad. induction Hpre as [| l pre' Hl Hpre' IH]; simpl.
  - now rewrite Hbad.
  - rewrite Hl. simpl. exact IH.
Qed.

Lemma parseLabels_In (domain label : jsstring) :
  In label (parseLabels domain) <->
  In label (split 46%N domain) /\ label <> [].
Proof.
  unfold parseLabels. rewrite filter_In.
  destruct label as [| u rest].
  - split; intros [H1 H2]; [discriminate | congruence].
  - split; intros [H1 _]; split; auto; discriminate.
Qed.

(** C8. [validateDomain] splits its input on "." and drops the empty
    pieces; it fails exactly when no label is left ("Domain cannot be
    empty"), when more than 127 are ("exceeds maximum depth"), or when
    [validateWaveName] rejects one of them, the first such label being
    the one reported.  "a..b" is read as the labels "a" and "b" and is
    valid; the empty string is invalid. *)
Theorem validateDomain_spec (domain : jsstring) :
  let labels := parseLabels domain in
  let ok := fun label => valid (validateWaveName toLowerCase label) = true in
  (forall label, In label labels <-> In label (split 46%N domain) /\ label <> [])
  /\ (valid (validateDomain toLowerCase domain) = false <->
      labels = [] \/ (List.length labels > 127)%nat
      \/ Exists (fun label => ~ ok label) labels)
  /\ (labels = [] ->
      validateDomain toLowerCase domain = fail (str "Domain cannot be empty"))
  /\ ((List.length labels > 127)%nat ->
      validateDomain toLowerCase domain
      = fail (str "Domain exceeds maximum depth of 127"))
  /\ (forall pre label post,
        labels = pre ++ label :: post ->
        (List.length labels <= 127)%nat ->
        Forall ok pre -> ~ ok label ->
        validateDomain toLowerCase domain
        = fail (str "Invalid label " ++ dquote ++ label ++ dquote ++ str ": "
                ++ render (error (validateWaveName toLowerCase label))))
  /\ parseLabels (str "a..b") = [str "a"; str "b"]
  /\ validateDomain toLowerCase (str "a..b") = pass
  /\ validateDomain toLowerCase (str "") = fail (str "Domain cannot be empty").
Proof.
  intros labels ok.
  assert (Hempty : labels = [] ->
            validateDomain toLowerCase domain = fail (str "Domain cannot be empty")).
  { intros H. unfold validateDomain. fold labels. rewrite H. reflexivity. }
  assert (Hdeep : (List.length labels > 127)%nat ->
            validateDomain toLowerCase domain
            = fail (str "Domain exceeds maximum depth of 127")).
  { intros H. unfold validateDomain. fold labels.
    replace (Z.of_nat (List.length labels) =? 0) with false
      by (symmetry; apply Z.eqb_neq; lia).
    replace (Z.of_nat (List.length labels) >? MAX_SUBDOMAIN_DEPTH) with true
      by (symmetry; rewrite Z.gtb_ltb; apply Z.ltb_lt; unfold MAX_SUBDOMAIN_DEPTH; lia).
    reflexivity. }
  assert (Hloop : labels <> [] -> (List.length labels <= 127)%nat ->
            validateDomain toLowerCase domain
            = match firstInvalidLabel toLowerCase labels with
              | Some message => fail message
              | None => pass
              end).
  { intros Hne Hlen. unfold validateDomain. fold labels.
    replace (Z.of_nat (List.length labels) =? 0) with false
      by (symmetry; apply Z.eqb_neq; destruct labels; [congruence | simpl; lia]).
    replace (Z.of_nat (List.length labels) >? MAX_SUBDOMAIN_DEPTH) with false
      by (symmetry; rewrite Z.gtb_ltb; apply Z.ltb_ge; unfold MAX_SUBDOMAIN_DEPTH; lia).
    reflexivity. }
  split; [intros label; apply parseLabels_In |].
  split; [| split; [exact Hempty | split; [exact Hdeep | split]]].
  - destruct labels as [| l0 rest] eqn:Hlabels.
    + rewrite Hempty by reflexivity. simpl. tauto.
    + destruct (Nat.le_gt_cases (List.length (l0 :: rest)) 127) as [Hle | Hgt].
      * rewrite Hloop by (auto; discriminate).
        pose proof (firstInvalidLabel_None (l0 :: rest)) as Hnone.
        destruct (firstInvalidLabel toLowerCase (l0 :: rest)) as [message |].
        -- simpl. split; [| reflexivity]. intros _. right. right.
           apply Exists_Forall_neg.
           ++ intros label. unfold ok.
              destruct (valid (validateWaveName toLowerCase label)); [left | right];
                congruence.
           ++ intros Hall. apply Hnone in Hall. discriminate.
        -- simpl. split; [discriminate |].
           intros [H | [H | H]]; [discriminate | simpl in Hle; lia |].
           destruct Hnone as [Hnone _]. specialize (Hnone eq_refl).
           apply Exists_exists in H. destruct H as [label [Hin Hbad]].
           rewrite Forall_forall in Hnone. elim Hbad. now apply Hnone.
      * rewrite Hdeep by lia. split; [| reflexivity]. intros _. right. left. exact Hgt.
  - intros pre label post Hsplit Hlen Hpre Hbad.
    rewrite Hloop; [| rewrite Hsplit; destruct pre; discriminate | exact Hlen].
    rewrite Hsplit, firstInvalidLabel_first; [reflexivity | exact Hpre |].
    unfold ok in Hbad. now apply not_true_is_false.
  - split; [reflexivity |]. split; [| reflexivity].
    unfold validateDomain.
    change (parseLabels (str "a..b")) with [str "a"; str "b"].
    cbv beta iota zeta delta [List.length Z.of_nat Z.eqb Z.gtb Z.compare
                                MAX_SUBDOMAIN_DEPTH Pos.of_succ_nat Pos.succ
                                Pos.compare Pos.compare_cont firstInvalidLabel].
    rewrite !validateWaveName_ascii
      by (apply Forall_isAscii_check; vm_compute; reflexivity).
    vm_compute. reflexivity.
Qed.

(** The character loop lets a string through only when each of its
    code units is a symbol of the alphabet: a surrogate pair is never
    a substring of [WAVE_CHARS]. *)
Lemma firstInvalidChar_bounded (n : nat) :
  forall s : jsstring,
    (List.length s <= n)%nat ->
    firstInvalidChar (codePoints s) = None ->
    Forall (fun u => In u WAVE_CHARS) s.
Proof.
  induction n as [| n IH]; intros s Hlen Hnone.
  - destruct s; [constructor | simpl in Hlen; lia].
  - destruct s as [| u [| w t]].
    + constructor.
    + cbn [codePoints firstInvalidChar] in Hnone.
      destruct (includes WAVE_CHARS [u]) eqn:Hinc; [| discriminate].
      constructor; [now apply includes_unit | constructor].
    + rewrite codePoints_cons2 in Hnone.
      destruct (isHighSurrogate u && isLowSurrogate w) eqn:Hpair.
      * cbn [firstInvalidChar] in Hnone.
        destruct (includes WAVE_CHARS [u; w]) eqn:Hinc; [| discriminate].
        apply includes_head in Hinc.
        destruct (WAVE_CHARS_symbols u Hinc) as [Hlt _].
        apply andb_true_iff in Hpair. destruct Hpair as [Hhigh _].
        unfold isHighSurrogate in Hhigh.
        apply andb_true_iff in Hhigh. destruct Hhigh as [Hhigh _].
        apply N.leb_le in Hhigh. lia.
      * cbn [firstInvalidChar] in Hnone.
        destruct (includes WAVE_CHARS [u]) eqn:Hinc; [| discriminate].
        constructor; [now apply includes_unit |].
        apply IH; [simpl in Hlen |- *; lia | exact Hnone].
Qed.

Lemma valid_name_symbols (name : jsstring) :
  valid (validateWaveName toLowerCase name) = true ->
  Forall (fun u => In u WAVE_CHARS) (toLowerCase name).
Proof.
  intros Hvalid.
  apply (firstInvalidChar_bounded (List.length (toLowerCase name)));
    [lia | now apply validateWaveName_valid_inv].
Qed.

(** The path of a string of alphabet symbols: no callback throws. *)
Lemma path_of_symbols (s : jsstring) :
  Forall (fun u => In u WAVE_CHARS) s ->
  mapM (fun char =>
          index <- charToIndex toLowerCase char ;;
          outputIndex <- charToOutputIndex toLowerCase char ;;
          Ok (mkPathEntry char index outputIndex))
       (splitUnits s)
  = Ok (map (fun u => mkPathEntry [u] (indexOf WAVE_CHARS [u])
                                  (indexOf WAVE_CHARS [u] + 1)) s).
Proof.
  induction 1 as [| u rest Hu Hrest IH].
  - reflexivity.
  - change (splitUnits (u :: rest)) with ([u] :: splitUnits rest).
    cbn [mapM]. rewrite IH. unfold charToOutputIndex.
    rewrite (charToIndex_symbol u Hu). reflexivity.
Qed.

Lemma getCharacterPath_valid (name : jsstring) :
  valid (validateWaveName toLowerCase name) = true ->
  getCharacterPath toLowerCase name
  = Ok (map (fun u => mkPathEntry [u] (indexOf WAVE_CHARS [u])
                                  (indexOf WAVE_CHARS [u] + 1))
            (toLowerCase name)).
Proof.
  intros Hvalid. unfold getCharacterPath. rewrite Hvalid. simpl negb. cbv iota.
  apply path_of_symbols. now apply valid_name_symbols.
Qed.

Section MetadataFacts.

Variable Zone : Type.
Variable emptyZone : Zone.


(** C2. For every valid name, the record built with [mutable: false]
    carries the protocol list [2; 11], and [validateProtocols]
    rejects that very list: WAVE requires MUT. *)
Theorem immutable_metadata_fails_validateProtocols (name : jsstring)
        (parentRef : option jsstring) (zone : option Zone)
        (options : WaveOptions) :
  valid (validateWaveName toLowerCase name) = true ->
  opt_mutable options = Some false ->
  exists metadata,
    createWaveMetadata toLowerCase emptyZone name parentRef zone (Some options)
    = Ok metadata
    /\ p metadata = [2; 11]
    /\ Glyph.validateProtocols (p metadata)
       = fail (str "Protocol GLYPH_WAVE requires GLYPH_MUT").
Proof.
  intros Hvalid Hflag. unfold createWaveMetadata.
  rewrite Hvalid, Hflag. simpl negb. cbv iota zeta.
  eexists. split; [reflexivity |].
  destruct (truthy (opt_description options)); split; reflexivity.
Qed.

(** C6, as the code has it.  For every valid name
    [createWaveMetadata] returns a record; with [mutable] explicitly
    false its [p] is [2; 11] and it has no mutable block; otherwise
    (flag absent or true) its [p] is [2; 5; 11] and its mutable block
    has [allowed = true], the one field "/app/data/zone", and a
    controller exactly when [controllerRef] is supplied and is not
    the empty string. *)
Theorem createWaveMetadata_protocols (name : jsstring)
        (parentRef : option jsstring) (zone : option Zone)
        (options : option WaveOptions) :
  let given := match options with Some o => o | None => noOptions end in
  valid (validateWaveName toLowerCase name) = true ->
  exists metadata,
    createWaveMetadata toLowerCase emptyZone name parentRef zone options
    = Ok metadata
    /\ (opt_mutable given = Some false ->
        p metadata = [2; 11] /\ mutable metadata = None)
    /\ (opt_mutable given <> Some false ->
        p metadata = [2; 5; 11]
        /\ exists block,
            mutable metadata = Some block
            /\ allowed block = true
            /\ fields block = [str "/app/data/zone"]
            /\ (forall ref, opt_controllerRef given = Some ref ->
                            ref <> [] -> controller block = Some ref)
            /\ (opt_controllerRef given = Some [] -> controller block = None)
            /\ (opt_controllerRef given = None -> controller block = None)).
Proof.
  intros given Hvalid. unfold createWaveMetadata.
  rewrite Hvalid. simpl negb. cbv iota zeta. fold given.
  eexists. split; [reflexivity |].
  destruct (opt_mutable given) as [[|] |];
    (split; [intros Hflag | intros Hflag]); try congruence;
    try (destruct (truthy (opt_description given)); split; reflexivity).
  all: split; [destruct (truthy (opt_description given)); reflexivity |].
  all: eexists; split;
    [destruct (truthy (opt_description given)); reflexivity |].
  all: simpl; repeat split.
  all: try (intros ref Href Hne; rewrite Href; destruct ref; [congruence | reflexivity]).
  all: intros Href; rewrite Href; reflexivity.
Qed.

End MetadataFacts.

(** Integers up to 2^53 in magnitude are doubles: rounding leaves them. *)
Lemma roundToDouble_exact (z : Z) :
  - 2 ^ 53 <= z <= 2 ^ 53 -> roundToDouble z = z.
Proof.
  intros Hz. unfold roundToDouble. cbv zeta.
  destruct (Z.ltb_spec (Z.log2 (Z.abs z)) 53) as [Hlt | Hge]; [reflexivity |].
  change (2 ^ 53) with 9007199254740992 in Hz.
  assert (Z.abs z = 9007199254740992) as Habs.
  { destruct (Z.eq_dec (Z.abs z) 9007199254740992) as [H | H]; [exact H |].
    exfalso.
    destruct (Z.eq_dec (Z.abs z) 0) as [H0 | H0].
    - rewrite H0 in Hge. simpl in Hge. lia.
    - assert (Z.log2 (Z.abs z) < 53); [| lia].
      apply Z.log2_lt_pow2; [lia |].
      change (2 ^ 53) with 9007199254740992. lia. }
  assert (z = 9007199254740992 \/ z = - 9007199254740992) as [-> | ->] by lia;
    vm_compute; reflexivity.
Qed.

Lemma toDouble_exact (z : Z) :
  - 2 ^ 53 <= z <= 2 ^ 53 -> toDouble z = Finite z.
Proof.
  intros Hz. unfold toDouble. cbv zeta. rewrite (roundToDouble_exact z Hz).
  assert (2 ^ 53 <= maxDouble) as Hmax by (vm_compute; discriminate).
  remember maxDouble as top. clear Heqtop.
  destruct (Z.gtb_spec z top); [lia |].
  destruct (Z.ltb_spec z (- top)); [lia | reflexivity].
Qed.

(** While the exact results stay within 2^53 the estimate is exact. *)
Lemma estimateResolutionSize_exact (name : jsstring) (updateCount : Z) :
  0 <= updateCount ->
  (JS.length name + 1) * 1024 + updateCount * 500 <= 2 ^ 53 ->
  estimateResolutionSize name (Some updateCount)
  = Finite ((JS.length name + 1) * 1024 + updateCount * 500).
Proof.
  intros Hcount Hbound. pose proof (length_nonneg name) as Hlen.
  change (2 ^ 53) with 9007199254740992 in Hbound.
  unfold estimateResolutionSize. cbv zeta. cbn [numAdd numMul].
  rewrite (toDouble_exact (JS.length name + 1))
    by (change (2 ^ 53) with 9007199254740992; lia).
  cbn [numAdd numMul].
  rewrite (toDouble_exact ((JS.length name + 1) * 1024))
    by (change (2 ^ 53) with 9007199254740992; lia).
  rewrite (toDouble_exact (updateCount * 500))
    by (change (2 ^ 53) with 9007199254740992; lia).
  cbn [numAdd numMul].
  apply toDouble_exact. change (2 ^ 53) with 9007199254740992. lia.
Qed.

(** More generally the estimate is exact whenever the product and the
    sum of the formula are doubles themselves. *)
Lemma estimateResolutionSize_representable (name : jsstring) (updateCount : Z) :
  0 <= updateCount ->
  (JS.length name + 1) * 1024 <= 2 ^ 53 ->
  roundToDouble (updateCount * 500) = updateCount * 500 ->
  isDouble ((JS.length name + 1) * 1024 + updateCount * 500) ->
  estimateResolutionSize name (Some updateCount)
  = Finite ((JS.length name + 1) * 1024 + updateCount * 500).
Proof.
  intros Hcount Hname Hproduct [Hsum Hmax]. pose proof (length_nonneg name) as Hlen.
  change (2 ^ 53) with 9007199254740992 in Hname.
  unfold estimateResolutionSize. cbv zeta. cbn [numAdd numMul].
  rewrite (toDouble_exact (JS.length name + 1))
    by (change (2 ^ 53) with 9007199254740992; lia).
  cbn [numAdd numMul].
  rewrite (toDouble_exact ((JS.length name + 1) * 1024))
    by (change (2 ^ 53) with 9007199254740992; lia).
  remember maxDouble as top eqn:Htop.
  assert (toDouble (updateCount * 500) = Finite (updateCount * 500)) as ->.
  { unfold toDouble. cbv zeta. rewrite Hproduct, <- Htop.
    destruct (Z.gtb_spec (updateCount * 500) top); [lia |].
    destruct (Z.ltb_spec (updateCount * 500) (- top)); [lia | reflexivity]. }
  cbn [numAdd]. unfold toDouble. cbv zeta. rewrite Hsum, <- Htop.
  destruct (Z.gtb_spec ((JS.length name + 1) * 1024 + updateCount * 500) top);
    [lia |].
  destruct (Z.ltb_spec ((JS.length name + 1) * 1024 + updateCount * 500) (- top));
    [lia | reflexivity].
Qed.


End WaveFacts.

(** ** The theorems at concrete inputs *)

Section Instances.

Import Wave.
Open Scope Z_scope.

(** The ASCII lowercasing meets the assumption made of [toLowerCase]. *)
Lemma asciiToLowerCase_ascii (s : jsstring) :
  Forall isAscii s -> asciiToLowerCase s = map asciiLowerUnit s.
Proof. reflexivity. Qed.

(** {BURN, MUT}: Burn with a modifier only. *)
Lemma validateProtocols_burn_needs_base_witness :
  In Glyph.GLYPH_BURN [6; 5]
  /\ ~ In Glyph.GLYPH_FT [6; 5]
  /\ ~ In Glyph.GLYPH_NFT [6; 5]
  /\ valid (Glyph.validateProtocols [6; 5]) = false.
Proof.
  assert (In Glyph.GLYPH_BURN [6; 5]) as Hburn by (left; reflexivity).
  assert (~ In Glyph.GLYPH_FT [6; 5]) as Hft
      by (intros [H | [H | []]]; discriminate H).
  assert (~ In Glyph.GLYPH_NFT [6; 5]) as Hnft
      by (intros [H | [H | []]]; discriminate H).
  split; [exact Hburn | split; [exact Hft | split; [exact Hnft |]]].
  exact (validateProtocols_burn_needs_base [6; 5] Hburn Hft Hnft).
Defined.

(** Output 12 is "l"; "L" and "l" both sit at output 12. *)
Lemma codec_round_trip_witness :
  (ch <- outputIndexToChar 12 ;; charToOutputIndex asciiToLowerCase ch) = Ok 12
  /\ (i <- charToOutputIndex asciiToLowerCase (str "L") ;; outputIndexToChar i)
     = Ok (str "l").
Proof.
  destruct (codec_round_trip asciiToLowerCase asciiToLowerCase_ascii)
    as [Hindex Hchar].
  split.
  - apply Hindex. lia.
  - apply (Hchar (str "L")).
    + reflexivity.
    + exists 108%N. split; [reflexivity |]. vm_compute. tauto.
Defined.

(** 64 times "a" is one character too long; "xn--" followed by 59
    times "a" has 63 characters and is accepted. *)
Lemma validateWaveName_length_limit_witness :
  JS.length (repeat 97%N 64) > 63
  /\ validateWaveName asciiToLowerCase (repeat 97%N 64)
     = fail (str "Name exceeds maximum length of 63")
  /\ JS.length (str "xn--" ++ repeat 97%N 59) = 63
  /\ validateWaveName asciiToLowerCase (str "xn--" ++ repeat 97%N 59) = pass.
Proof.
  assert (JS.length (repeat 97%N 64) > 63) as Hlen by reflexivity.
  destruct (validateWaveName_length_limit asciiToLowerCase asciiToLowerCase_ascii)
    as [Hlong [Hfull _]].
  split; [exact Hlen |].
  split; [exact (Hlong (repeat 97%N 64) Hlen) |].
  split; [reflexivity |].
  apply Hfull.
  - reflexivity.
  - apply Forall_symbols_check. vm_compute. reflexivity.
  - reflexivity.
  - reflexivity.
  - reflexivity.
Defined.

Lemma validateWaveName_uppercase_punycode_witness :
  isPunycode asciiToLowerCase (str "XN--WGV71A") = true
  /\ validateWaveName asciiToLowerCase (str "XN--WGV71A")
     = fail (str "Name cannot contain consecutive hyphens (except Punycode prefix)").
Proof.
  destruct (validateWaveName_uppercase_punycode asciiToLowerCase
              asciiToLowerCase_ascii) as [_ [_ [Hpuny [Hfail _]]]].
  split; [exact Hpuny | exact Hfail].
Defined.

(** "-alice.bob": the first label is the one reported. *)
Lemma validateDomain_spec_witness :
  parseLabels (str "-alice.bob") = [str "-alice"; str "bob"]
  /\ validateDomain asciiToLowerCase (str "-alice.bob")
     = fail (str "Invalid label " ++ dquote ++ str "-alice" ++ dquote
             ++ str ": Name cannot start with hyphen").
Proof.
  split; [reflexivity |].
  destruct (validateDomain_spec asciiToLowerCase asciiToLowerCase_ascii
              (str "-alice.bob")) as [_ [_ [_ [_ [Hfirst _]]]]].
  apply (Hfirst [] (str "-alice") [str "bob"]).
  - reflexivity.
  - vm_compute. repeat constructor.
  - constructor.
  - vm_compute. discriminate.
Defined.


Lemma immutable_metadata_fails_validateProtocols_witness :
  let options := mkWaveOptions (Some false) None None in
  valid (validateWaveName asciiToLowerCase (str "alice")) = true
  /\ opt_mutable options = Some false
  /\ exists metadata,
      createWaveMetadata asciiToLowerCase stdEmptyZone (str "alice") None None
                         (Some options) = Ok metadata
      /\ p metadata = [2; 11]
      /\ Glyph.validateProtocols (p metadata)
         = fail (str "Protocol GLYPH_WAVE requires GLYPH_MUT").
Proof.
  intros options.
  assert (valid (validateWaveName asciiToLowerCase (str "alice")) = true)
    as Hvalid by reflexivity.
  assert (opt_mutable options = Some false) as Hflag by reflexivity.
  split; [exact Hvalid | split; [exact Hflag |]].
  exact (immutable_metadata_fails_validateProtocols asciiToLowerCase StdZoneRecords stdEmptyZone
           (str "alice") None None options Hvalid Hflag).
Defined.

(** An empty [controllerRef] is supplied and yet no controller is set:
    [if (options.controllerRef)] is false of the empty string. *)
Lemma createWaveMetadata_empty_controllerRef :
  let options := mkWaveOptions None (Some (str "")) None in
  exists metadata block,
    createWaveMetadata asciiToLowerCase stdEmptyZone (str "alice") None None
                       (Some options) = Ok metadata
    /\ mutable metadata = Some block
    /\ opt_controllerRef options = Some (str "")
    /\ controller block = None
    /\ ~ (forall ref, opt_controllerRef options = Some ref ->
                      controller block = Some ref).
Proof.
  intros options. do 2 eexists.
  split; [reflexivity |]. split; [reflexivity |].
  split; [reflexivity |]. split; [reflexivity |].
  intros H. specialize (H (str "") eq_refl). discriminate H.
Qed.



Lemma createWaveMetadata_protocols_witness :
  let options := mkWaveOptions None (Some (str "ctrl")) None in
  valid (validateWaveName asciiToLowerCase (str "alice")) = true
  /\ exists metadata,
      createWaveMetadata asciiToLowerCase stdEmptyZone (str "alice") None None
                         (Some options) = Ok metadata
      /\ p metadata = [2; 5; 11]
      /\ exists block,
          mutable metadata = Some block
          /\ allowed block = true
          /\ fields block = [str "/app/data/zone"]
          /\ controller block = Some (str "ctrl").
Proof.
  intros options.
  assert (valid (validateWaveName asciiToLowerCase (str "alice")) = true)
    as Hvalid by reflexivity.
  split; [exact Hvalid |].
  destruct (createWaveMetadata_protocols asciiToLowerCase StdZoneRecords stdEmptyZone
              (str "alice") None None (Some options) Hvalid)
    as [metadata [Hcreate [_ Hmutable]]].
  exists metadata. split; [exact Hcreate |].
  destruct Hmutable as [Hp [block [Hblock [Hallowed [Hfields [Hctrl _]]]]]];
    [discriminate |].
  split; [exact Hp |].
  exists block.
  split; [exact Hblock | split; [exact Hallowed | split; [exact Hfields |]]].
  apply Hctrl; [reflexivity | discriminate].
Defined.

End Instances.

(** ** The package's own tests, run on the embedding *)

Section PackageTests.

Import Wave.
Open Scope Z_scope.

Example test_charToIndex :
  charToIndex asciiToLowerCase (str "a") = Ok 0
  /\ charToIndex asciiToLowerCase (str "z") = Ok 25
  /\ charToIndex asciiToLowerCase (str "0") = Ok 26
  /\ charToIndex asciiToLowerCase (str "9") = Ok 35
  /\ charToIndex asciiToLowerCase (str "-") = Ok 36
  /\ charToIndex asciiToLowerCase (str "A") = Ok 0
  /\ charToIndex asciiToLowerCase (str "Z") = Ok 25
  /\ charToIndex asciiToLowerCase (str "!") = Throw (str "Invalid WAVE character: " ++ quoted (str "!"))
  /\ charToIndex asciiToLowerCase (str " ") = Throw (str "Invalid WAVE character: " ++ quoted (str " "))
  /\ charToIndex asciiToLowerCase (str "_") = Throw (str "Invalid WAVE character: " ++ quoted (str "_"))
  /\ charToIndex asciiToLowerCase (str "ab") = Throw (str "Expected single character, got: " ++ quoted (str "ab")).
Proof. repeat split. Qed.

Example test_indexToChar :
  indexToChar 0 = Ok (str "a")
  /\ indexToChar 25 = Ok (str "z")
  /\ indexToChar 26 = Ok (str "0")
  /\ indexToChar 35 = Ok (str "9")
  /\ indexToChar 36 = Ok (str "-")
  /\ indexToChar (-1) = Throw (str "Invalid WAVE index: -1 (must be 0-36)")
  /\ indexToChar 37 = Throw (str "Invalid WAVE index: 37 (must be 0-36)")
  /\ charToOutputIndex asciiToLowerCase (str "a") = Ok 1
  /\ charToOutputIndex asciiToLowerCase (str "-") = Ok 37
  /\ outputIndexToChar 0 = Throw (str "Invalid branch output index: 0 (must be 1-37)")
  /\ outputIndexToChar 38 = Throw (str "Invalid branch output index: 38 (must be 1-37)").
Proof. repeat split. Qed.

Example test_validateWaveName :
  validateWaveName asciiToLowerCase (str "alice") = pass
  /\ validateWaveName asciiToLowerCase (str "bob123") = pass
  /\ validateWaveName asciiToLowerCase (str "my-name") = pass
  /\ validateWaveName asciiToLowerCase (str "a") = pass
  /\ validateWaveName asciiToLowerCase (str "0") = pass
  /\ validateWaveName asciiToLowerCase (str "") = fail (str "Name cannot be empty")
  /\ validateWaveName asciiToLowerCase (str "-alice") = fail (str "Name cannot start with hyphen")
  /\ validateWaveName asciiToLowerCase (str "alice-") = fail (str "Name cannot end with hyphen")
  /\ validateWaveName asciiToLowerCase (str "al--ice")
     = fail (str "Name cannot contain consecutive hyphens (except Punycode prefix)")
  /\ validateWaveName asciiToLowerCase (str "xn--wgv71a") = pass
  /\ validateWaveName asciiToLowerCase (str "alice!") = fail (str "Invalid character: " ++ quoted (str "!"))
  /\ validateWaveName asciiToLowerCase (repeat 97%N 64)
     = fail (str "Name exceeds maximum length of 63")
  /\ validateWaveName asciiToLowerCase (repeat 97%N 63) = pass.
Proof. repeat split. Qed.

Example test_validateDomain :
  validateDomain asciiToLowerCase (str "alice") = pass
  /\ validateDomain asciiToLowerCase (str "mail.alice") = pass
  /\ validateDomain asciiToLowerCase (str "dev.mail.alice") = pass
  /\ valid (validateDomain asciiToLowerCase (str "")) = false
  /\ validateDomain asciiToLowerCase (str "-alice.bob")
     = fail (str "Invalid label " ++ quoted (str "-alice")
             ++ str ": Name cannot start with hyphen").
Proof. repeat split. Qed.

Example test_parseLabels :
  parseLabels (str "alice") = [str "alice"]
  /\ parseLabels (str "mail.alice") = [str "mail"; str "alice"]
  /\ parseLabels (str "a.b.c") = [str "a"; str "b"; str "c"]
  /\ parseLabels (str "") = []
  /\ parseLabels (str ".") = []
  /\ parseLabels (str "a..b") = [str "a"; str "b"]
  /\ joinLabels [str "alice"] = str "alice"
  /\ joinLabels [str "mail"; str "alice"] = str "mail.alice".
Proof. repeat split. Qed.

Example test_isPunycode :
  isPunycode asciiToLowerCase (str "xn--wgv71a") = true
  /\ isPunycode asciiToLowerCase (str "XN--WGV71A") = true
  /\ isPunycode asciiToLowerCase (str "alice") = false
  /\ isPunycode asciiToLowerCase (str "xn-test") = false.
Proof. repeat split. Qed.

Example test_createWaveMetadata :
  let zone := mkStdZoneRecords (Some (str "1Alice...")) None None None None None
                               None None None None None None in
  createWaveMetadata asciiToLowerCase stdEmptyZone (str "alice") None (Some zone) None
  = Ok (mkWaveMetadata 2 (str "wave_name") [2; 5; 11] (Some (str "alice")) None
          (mkWaveApp (str "rxd.wave") (str "wave_name_v1")
             (mkWaveNameData (str "alice") None None zone None))
          (Some (mkMutableBlock true None [str "/app/data/zone"])))
  /\ (exists metadata,
        createWaveMetadata asciiToLowerCase stdEmptyZone (str "mail") (Some (str "parent-ref"))
                           None None = Ok metadata
        /\ parent (data (app metadata)) = Some (str "parent-ref"))
  /\ (exists metadata,
        createWaveMetadata asciiToLowerCase stdEmptyZone (str "alice") None None
          (Some (mkWaveOptions None None (Some (str "My name")))) = Ok metadata
        /\ desc metadata = Some (str "My name"))
  /\ (exists metadata,
        createWaveMetadata asciiToLowerCase stdEmptyZone (str "alice") None None
          (Some (mkWaveOptions (Some false) None None)) = Ok metadata
        /\ p metadata = [2; 11] /\ mutable metadata = None)
  /\ createWaveMetadata asciiToLowerCase stdEmptyZone (str "-invalid") None None None
     = Throw (str "Invalid name: Name cannot start with hyphen").
Proof.
  intros zone. split; [reflexivity |].
  split; [eexists; split; reflexivity |].
  split; [eexists; split; reflexivity |].
  split; [eexists; repeat split |].
  reflexivity.
Qed.

Example test_getCharacterPath :
  getCharacterPath asciiToLowerCase (str "alice")
  = Ok [ mkPathEntry (str "a") 0 1; mkPathEntry (str "l") 11 12;
         mkPathEntry (str "i") 8 9; mkPathEntry (str "c") 2 3;
         mkPathEntry (str "e") 4 5 ]
  /\ getCharacterPath asciiToLowerCase (str "ALICE") = getCharacterPath asciiToLowerCase (str "alice")
  /\ throws (getCharacterPath asciiToLowerCase (str "-invalid")) = true.
Proof. repeat split. Qed.

Example test_validateProtocols :
  Glyph.validateProtocols [1] = pass
  /\ Glyph.validateProtocols [2] = pass
  /\ Glyph.validateProtocols [1; 4] = pass
  /\ Glyph.validateProtocols [2; 5] = pass
  /\ Glyph.validateProtocols [2; 7] = pass
  /\ Glyph.validateProtocols [2; 5; 11] = pass
  /\ Glyph.validateProtocols [1; 2]
     = fail (str "Protocols GLYPH_FT and GLYPH_NFT are mutually exclusive")
  /\ Glyph.validateProtocols [4] = fail (str "Protocol GLYPH_DMINT requires GLYPH_FT")
  /\ valid (Glyph.validateProtocols [5]) = false
  /\ Glyph.validateProtocols [2; 11] = fail (str "Protocol GLYPH_WAVE requires GLYPH_MUT")
  /\ Glyph.validateProtocols [] = pass
  /\ Glyph.validateProtocols [1; 2; 3; 4; 5]
     = fail (str "Protocols GLYPH_FT and GLYPH_NFT are mutually exclusive")
  /\ Glyph.getProtocolName 6 = Some (str "GLYPH_BURN")
  /\ Glyph.getProtocolName 12 = None.
Proof. repeat split. Qed.

(** Rules the tests leave out: Burn beside an unrelated protocol, and
    duplicates of a modifier. *)
Example validateProtocols_burn_cases :
  Glyph.validateProtocols [6] = fail (str "Protocol GLYPH_BURN cannot exist alone")
  /\ Glyph.validateProtocols [6; 6] = fail (str "BURN must accompany FT or NFT")
  /\ Glyph.validateProtocols [6; 3] = fail (str "BURN must accompany FT or NFT")
  /\ Glyph.validateProtocols [6; 5] = fail (str "Protocol GLYPH_MUT requires GLYPH_NFT")
  /\ Glyph.validateProtocols [2; 6] = pass
  /\ Glyph.dedup [6; 5; 6; 5; 2] = [6; 5; 2].
Proof. repeat split. Qed.

End PackageTests.

(* ================================================================== *)
(** * Part III: further properties of the code                         *)
(* ================================================================== *)

(** ** validateProtocols and getProtocolName *)

Section GlyphMore.

Import Glyph.
Open Scope Z_scope.

Lemma arrIncludes_false (arr : list Z) (x : Z) :
  arrIncludes arr x = false <-> ~ In x arr.
Proof.
  rewrite <- arrIncludes_In. destruct (arrIncludes arr x); split; congruence.
Qed.

(** The requirement loop, requirement by requirement. *)
Lemma requirements_loop_spec (l : list Z) :
  forallb (requirementsMet l) l = true <->
  (In GLYPH_DMINT l -> In GLYPH_FT l)
  /\ (In GLYPH_MUT l -> In GLYPH_NFT l)
  /\ (In GLYPH_CONTAINER l -> In GLYPH_NFT l)
  /\ (In GLYPH_ENCRYPTED l -> In GLYPH_NFT l)
  /\ (In GLYPH_TIMELOCK l -> In GLYPH_ENCRYPTED l)
  /\ (In GLYPH_AUTHORITY l -> In GLYPH_NFT l)
  /\ (In GLYPH_WAVE l -> In GLYPH_NFT l /\ In GLYPH_MUT l).
Proof.
  rewrite forallb_forall. split.
  - intros H.
    repeat match goal with |- _ /\ _ => split end;
      intros Hin; specialize (H _ Hin);
      unfold requirementsMet in H; cbn in H;
      rewrite ?andb_true_iff, ?arrIncludes_In in H; tauto.
  - intros [H4 [H5 [H7 [H8 [H9 [H10 H11]]]]]] q Hq.
    unfold requirementsMet, PROTOCOL_REQUIREMENTS, PROTOCOL_REQUIREMENTS_entries.
    cbn [find fst snd option_map].
    repeat match goal with
           | |- context [ ?c =? q ] =>
               destruct (Z.eqb_spec c q) as [Heq | ?];
               [subst q |]; cbn [option_map snd forallb]
           end;
      rewrite ?andb_true_r, ?andb_true_iff, ?arrIncludes_In; tauto.
Qed.

(** The verdict of [validateProtocols], rule by rule. *)
Lemma validateProtocols_valid_spec (l : list Z) :
  valid (validateProtocols l) = true <->
  ~ (In GLYPH_FT l /\ In GLYPH_NFT l)
  /\ (In GLYPH_DMINT l -> In GLYPH_FT l)
  /\ (In GLYPH_MUT l -> In GLYPH_NFT l)
  /\ (In GLYPH_CONTAINER l -> In GLYPH_NFT l)
  /\ (In GLYPH_ENCRYPTED l -> In GLYPH_NFT l)
  /\ (In GLYPH_TIMELOCK l -> In GLYPH_ENCRYPTED l)
  /\ (In GLYPH_AUTHORITY l -> In GLYPH_NFT l)
  /\ (In GLYPH_WAVE l -> In GLYPH_NFT l /\ In GLYPH_MUT l)
  /\ (In GLYPH_BURN l -> In GLYPH_FT l \/ In GLYPH_NFT l).
Proof.
  rewrite validateProtocols_acceptable. unfold acceptable, burnWithoutBase.
  rewrite !andb_true_iff, !negb_true_iff, requirements_loop_spec.
  rewrite ?andb_false_iff, ?andb_true_iff, ?negb_false_iff, ?negb_true_iff.
  rewrite ?arrIncludes_false, ?arrIncludes_In.
  pose proof (in_dec Z.eq_dec GLYPH_FT l) as [Hft | Hft];
    pose proof (in_dec Z.eq_dec GLYPH_NFT l) as [Hnft | Hnft];
    pose proof (in_dec Z.eq_dec GLYPH_BURN l) as [Hburn | Hburn];
    tauto.
Qed.

(** X1. [validateProtocols] accepts a list exactly when, as a set of ids:
    FT and NFT are not both present; DMINT comes with FT; MUT, CONTAINER,
    ENCRYPTED and AUTHORITY come with NFT; TIMELOCK comes with ENCRYPTED;
    WAVE comes with NFT and MUT; BURN comes with FT or NFT. *)
Theorem validateProtocols_accepts_iff (l : list Z) :
  valid (validateProtocols l) = true <->
  ~ (In GLYPH_FT l /\ In GLYPH_NFT l)
  /\ (In GLYPH_DMINT l -> In GLYPH_FT l)
  /\ (In GLYPH_MUT l -> In GLYPH_NFT l)
  /\ (In GLYPH_CONTAINER l -> In GLYPH_NFT l)
  /\ (In GLYPH_ENCRYPTED l -> In GLYPH_NFT l)
  /\ (In GLYPH_TIMELOCK l -> In GLYPH_ENCRYPTED l)
  /\ (In GLYPH_AUTHORITY l -> In GLYPH_NFT l)
  /\ (In GLYPH_WAVE l -> In GLYPH_NFT l /\ In GLYPH_MUT l)
  /\ (In GLYPH_BURN l -> In GLYPH_FT l \/ In GLYPH_NFT l).
Proof. exact (validateProtocols_valid_spec l). Qed.

(** X2. The verdict does not depend on the order of the ids: lists that
    are permutations of each other are both accepted or both rejected
    (the message of a rejection may differ). *)
Theorem validateProtocols_order_irrelevant (l l' : list Z) :
  Permutation l l' ->
  valid (validateProtocols l) = valid (validateProtocols l').
Proof.
  intros Hperm. apply validateProtocols_valid_ext. intros x. split.
  - now apply Permutation_in.
  - apply Permutation_in. now apply Permutation_sym.
Qed.

(** X3. Ids the tables do not mention are ignored: adding DAT (3) or any
    id outside 1..11 to a list never changes the verdict, and neither
    the range of an id nor the number of ids is ever checked. *)
Theorem validateProtocols_ignores_unlisted (x : Z) (l : list Z) :
  x = GLYPH_DAT \/ x < 1 \/ 11 < x ->
  valid (validateProtocols (x :: l)) = valid (validateProtocols l).
Proof.
  intros Hx. apply eq_true_iff_eq. rewrite !validateProtocols_valid_spec.
  assert (forall c, 1 <= c <= 11 -> c <> GLYPH_DAT ->
                    (In c (x :: l) <-> In c l)) as Hin.
  { intros c Hc Hdat. simpl. split; [| tauto].
    intros [Heq | H]; [| exact H]. unfold GLYPH_DAT in *. lia. }
  unfold GLYPH_FT, GLYPH_NFT, GLYPH_DMINT, GLYPH_MUT, GLYPH_BURN,
    GLYPH_CONTAINER, GLYPH_ENCRYPTED, GLYPH_TIMELOCK, GLYPH_AUTHORITY,
    GLYPH_WAVE in *.
  rewrite !Hin by (unfold GLYPH_DAT; lia). reflexivity.
Qed.

(** X4. The exclusion check comes first: whenever FT and NFT are both in
    the list the result is the mutual-exclusion error, whatever other
    rules the list breaks as well. *)
Theorem validateProtocols_exclusion_first (l : list Z) :
  In GLYPH_FT l -> In GLYPH_NFT l ->
  validateProtocols l
  = fail (str "Protocols GLYPH_FT and GLYPH_NFT are mutually exclusive").
Proof.
  intros Hft Hnft. apply arrIncludes_In in Hft. apply arrIncludes_In in Hnft.
  unfold validateProtocols. cbn [checkExclusions PROTOCOL_EXCLUSIONS].
  rewrite Hft, Hnft. reflexivity.
Qed.

(** The messages the requirement loop can produce. *)
Lemma checkRequirements_messages (todo l : list Z) (message : jsstring) :
  checkRequirements todo l = Some message ->
  In message
     [ str "Protocol GLYPH_DMINT requires GLYPH_FT";
       str "Protocol GLYPH_MUT requires GLYPH_NFT";
       str "Protocol GLYPH_CONTAINER requires GLYPH_NFT";
       str "Protocol GLYPH_ENCRYPTED requires GLYPH_NFT";
       str "Protocol GLYPH_TIMELOCK requires GLYPH_ENCRYPTED";
       str "Protocol GLYPH_AUTHORITY requires GLYPH_NFT";
       str "Protocol GLYPH_WAVE requires GLYPH_NFT";
       str "Protocol GLYPH_WAVE requires GLYPH_MUT" ].
Proof.
  induction todo as [| q rest IH]; [discriminate |].
  cbn [checkRequirements].
  unfold PROTOCOL_REQUIREMENTS, PROTOCOL_REQUIREMENTS_entries.
  cbn [find fst snd option_map].
  repeat match goal with
         | |- context [ ?c =? q ] =>
             destruct (Z.eqb_spec c q) as [Heq | ?];
             [subst q |]; cbn [option_map snd checkRequired]
         end;
    try exact IH;
    repeat match goal with
           | |- context [ arrIncludes l ?c ] =>
               destruct (arrIncludes l c); cbn [negb]
           end;
    try exact IH;
    intros H; injection H as <-; vm_compute; tauto.
Qed.

(** The text [getProtocolName] contributes to a message. *)
Lemma getProtocolName_rendered (x : Z) :
  In (render (getProtocolName x))
     [ str "GLYPH_FT"; str "GLYPH_NFT"; str "GLYPH_DAT"; str "GLYPH_DMINT";
       str "GLYPH_MUT"; str "GLYPH_BURN"; str "GLYPH_CONTAINER";
       str "GLYPH_ENCRYPTED"; str "GLYPH_TIMELOCK"; str "GLYPH_AUTHORITY";
       str "GLYPH_WAVE"; str "undefined" ].
Proof.
  unfold getProtocolName, GlyphProtocol. cbn [find fst snd option_map].
  repeat match goal with
         | |- context [ ?c =? x ] =>
             destruct (Z.eqb_spec c x) as [Heq | ?];
             [subst x |]; cbn [option_map fst render]
         end;
    vm_compute; tauto.
Qed.

(** X5. The message "cannot exist alone" is produced for one input only,
    the list [6] (Burn alone); every other protocol of
    [PROTOCOLS_REQUIRE_BASE] standing alone is stopped earlier, by the
    requirement loop, with the message "requires" naming the first
    protocol its entry of [PROTOCOL_REQUIREMENTS] lists. *)
Theorem cannot_exist_alone_only_burn :
  (forall l : list Z,
     (exists x, validateProtocols l
              = fail (str "Protocol " ++ render (getProtocolName x)
                      ++ str " cannot exist alone"))
     <-> l = [GLYPH_BURN])
  /\ (forall x : Z,
      In x PROTOCOLS_REQUIRE_BASE -> x <> GLYPH_BURN ->
      exists required rest,
        PROTOCOL_REQUIREMENTS x = Some (required :: rest)
        /\ validateProtocols [x]
           = fail (str "Protocol " ++ render (getProtocolName x)
                   ++ str " requires " ++ render (getProtocolName required))).
Proof.
  split.
  - intros l.
    split; [| intros ->; exists GLYPH_BURN; reflexivity].
    intros [x Hx]. unfold validateProtocols in Hx.
    cbn [checkExclusions PROTOCOL_EXCLUSIONS] in Hx.
    destruct (arrIncludes l GLYPH_FT && arrIncludes l GLYPH_NFT).
    { exfalso. pose proof (getProtocolName_rendered x) as Hname.
      cbn [In] in Hname.
      repeat (destruct Hname as [Hname | Hname];
              [rewrite <- Hname in Hx; vm_compute in Hx; discriminate Hx |]).
      exact Hname. }
    destruct (checkRequirements l l) as [message |] eqn:Hreq.
    { exfalso. apply checkRequirements_messages in Hreq.
      pose proof (getProtocolName_rendered x) as Hname.
      injection Hx as Hx. rewrite Hx in Hreq. clear Hx.
      cbn [In] in Hname.
      repeat (destruct Hname as [Hname | Hname];
              [rewrite <- Hname in Hreq; vm_compute in Hreq;
               repeat (destruct Hreq as [Hreq | Hreq]; [discriminate Hreq |]);
               exact Hreq |]).
      exact Hname. }
    destruct (aloneNeedsBase l) as [only |] eqn:Halone.
    + destruct l as [| y [| z rest]]; try discriminate Halone.
      unfold aloneNeedsBase in Halone.
      destruct (arrIncludes PROTOCOLS_REQUIRE_BASE y) eqn:Hbase; [| discriminate].
      apply arrIncludes_In in Hbase. cbn [In PROTOCOLS_REQUIRE_BASE] in Hbase.
      destruct Hbase as [H | [H | [H | [H | [H | [H | [H | [H | []]]]]]]]];
        subst y; vm_compute in Hreq; try discriminate Hreq; reflexivity.
    + exfalso.
      destruct (arrIncludes l GLYPH_BURN);
        [destruct (negb (arrIncludes l GLYPH_FT) && negb (arrIncludes l GLYPH_NFT)) |];
        vm_compute in Hx; discriminate Hx.
  - intros x Hbase Hburn. cbn [In PROTOCOLS_REQUIRE_BASE] in Hbase.
    destruct Hbase as [H | [H | [H | [H | [H | [H | [H | [H | []]]]]]]]];
    subst x; try (exfalso; apply Hburn; reflexivity);
    eexists; eexists; (split; [reflexivity | vm_compute; reflexivity]).
Qed.

(** X6. What follows for accepted lists: a list with DMINT holds FT and
    none of NFT, MUT, CONTAINER, ENCRYPTED, TIMELOCK, AUTHORITY, WAVE;
    a list with TIMELOCK holds ENCRYPTED and NFT; a list with WAVE holds
    NFT and MUT and neither FT nor DMINT. *)
Theorem validateProtocols_accepted_combinations (l : list Z) :
  valid (validateProtocols l) = true ->
  (In GLYPH_DMINT l ->
   In GLYPH_FT l /\ ~ In GLYPH_NFT l /\ ~ In GLYPH_MUT l
   /\ ~ In GLYPH_CONTAINER l /\ ~ In GLYPH_ENCRYPTED l
   /\ ~ In GLYPH_TIMELOCK l /\ ~ In GLYPH_AUTHORITY l /\ ~ In GLYPH_WAVE l)
  /\ (In GLYPH_TIMELOCK l -> In GLYPH_ENCRYPTED l /\ In GLYPH_NFT l)
  /\ (In GLYPH_WAVE l ->
      In GLYPH_NFT l /\ In GLYPH_MUT l /\ ~ In GLYPH_FT l /\ ~ In GLYPH_DMINT l).
Proof.
  rewrite validateProtocols_valid_spec. tauto.
Qed.

(** X7. Every accepted list that holds a protocol of
    [PROTOCOLS_REQUIRE_BASE] also holds FT or NFT, whatever its length. *)
Theorem validateProtocols_modifier_has_base (l : list Z) (x : Z) :
  valid (validateProtocols l) = true ->
  In x l -> In x PROTOCOLS_REQUIRE_BASE ->
  In GLYPH_FT l \/ In GLYPH_NFT l.
Proof.
  rewrite validateProtocols_valid_spec. intros Hvalid Hx Hbase.
  cbn [In PROTOCOLS_REQUIRE_BASE] in Hbase.
  destruct Hbase as [H | [H | [H | [H | [H | [H | [H | [H | []]]]]]]]];
    subst x; tauto.
Qed.

(** X8. [getProtocolName] returns a name exactly for the ids 1..11
    ([undefined] otherwise), gives every table entry its own name back,
    and never gives two ids the same name. *)
Theorem getProtocolName_spec :
  (forall id, (exists n, getProtocolName id = Some n) <-> 1 <= id <= 11)
  /\ (forall n id, In (n, id) GlyphProtocol -> getProtocolName id = Some (str n))
  /\ (forall a b n, getProtocolName a = Some n -> getProtocolName b = Some n -> a = b).
Proof.
  assert (Hrange : forall id n, getProtocolName id = Some n -> 1 <= id <= 11).
  { intros id n. unfold getProtocolName, GlyphProtocol.
    cbn [find fst snd option_map].
    repeat match goal with
           | |- context [ ?c =? id ] =>
               destruct (Z.eqb_spec c id) as [Heq | ?];
               [subst id; intros _; vm_compute; split; discriminate |]
           end.
    discriminate. }
  assert (Hcases : forall id, 1 <= id <= 11 ->
            In id [1; 2; 3; 4; 5; 6; 7; 8; 9; 10; 11]).
  { intros id Hid. cbn [In]. lia. }
  split; [| split].
  - intros id. split.
    + intros [n Hn]. now apply Hrange in Hn.
    + intros Hid. apply Hcases in Hid. cbn [In] in Hid.
      repeat (destruct Hid as [<- | Hid]; [eexists; reflexivity |]).
      destruct Hid.
  - intros n id Hin. cbn [In GlyphProtocol] in Hin.
    repeat (destruct Hin as [Hin | Hin];
            [injection Hin as <- <-; reflexivity |]).
    destruct Hin.
  - intros a b n Ha Hb.
    pose proof (Hcases a (Hrange a n Ha)) as Hina.
    pose proof (Hcases b (Hrange b n Hb)) as Hinb.
    cbn [In] in Hina, Hinb.
    repeat (destruct Hina as [<- | Hina];
            [vm_compute in Ha; injection Ha as <-;
             repeat (destruct Hinb as [<- | Hinb];
                     [first [reflexivity | vm_compute in Hb; discriminate Hb] |]);
             destruct Hinb |]).
    destruct Hina.
Qed.

End GlyphMore.

(** ** More on JavaScript strings *)

Section JSMore.

Open Scope Z_scope.

Lemma startsWith_nil (s : jsstring) : startsWith s [] = true.
Proof. reflexivity. Qed.

Lemma indexOfFrom_empty (i : Z) (s : jsstring) : indexOfFrom i s [] = i.
Proof. destruct s; reflexivity. Qed.

(** A non-empty string is found inside [s] or not at all. *)
Lemma indexOfFrom_range (s sub : jsstring) :
  sub <> [] ->
  forall i, indexOfFrom i s sub = -1
            \/ i <= indexOfFrom i s sub < i + JS.length s.
Proof.
  intros Hsub. destruct sub as [| p sub']; [congruence |].
  induction s as [| c rest IH]; intros i.
  - left. reflexivity.
  - cbn [indexOfFrom].
    destruct (startsWith (c :: rest) (p :: sub')).
    + right. unfold JS.length. simpl List.length. lia.
    + destruct (IH (i + 1)) as [H | H]; [now left | right].
      unfold JS.length in *. simpl List.length. lia.
Qed.

Lemma indexOfFrom_notin (c : N) (s : jsstring) :
  ~ In c s -> forall i, indexOfFrom i s [c] = -1.
Proof.
  induction s as [| d rest IH]; intros Hnot i.
  - reflexivity.
  - cbn [indexOfFrom startsWith].
    destruct (N.eqb_spec d c) as [-> | Hneq].
    + elim Hnot. now left.
    + simpl andb. cbv iota. apply IH. intros H. apply Hnot. now right.
Qed.

(** [split] on a piece that holds no separator. *)
Lemma split_piece (sep : N) (a : jsstring) :
  ~ In sep a -> split sep a = [a].
Proof.
  induction a as [| c rest IH]; intros Hnot.
  - reflexivity.
  - cbn [split]. destruct (N.eqb_spec c sep) as [-> | Hneq].
    + elim Hnot. now left.
    + rewrite IH; [reflexivity |]. intros H. apply Hnot. now right.
Qed.

(** [split] cuts at the first separator. *)
Lemma split_app (sep : N) (a b : jsstring) :
  ~ In sep a -> split sep (a ++ sep :: b) = a :: split sep b.
Proof.
  induction a as [| c rest IH]; intros Hnot.
  - cbn [app split]. now rewrite N.eqb_refl.
  - cbn [app split]. destruct (N.eqb_spec c sep) as [-> | Hneq].
    + elim Hnot. now left.
    + rewrite IH; [reflexivity |]. intros H. apply Hnot. now right.
Qed.

Lemma split_join_pieces (sep : N) (pieces : list jsstring) :
  pieces <> [] ->
  Forall (fun piece => ~ In sep piece) pieces ->
  split sep (join [sep] pieces) = pieces.
Proof.
  intros Hne Hall. revert Hne.
  induction Hall as [| a rest Ha Hrest IH]; intros Hne; [now elim Hne |].
  destruct rest as [| b more].
  - cbn [join]. now apply split_piece.
  - change (join [sep] (a :: b :: more)) with (a ++ sep :: join [sep] (b :: more)).
    rewrite split_app by exact Ha. rewrite IH; [reflexivity | discriminate].
Qed.

(** Patterns made of one unit that the mapping neither creates nor
    removes are found in [map f s] where they are found in [s]. *)
Lemma startsWith_map_fixed (f : N -> N) (h : N) (s pattern : jsstring) :
  (forall u, (f u =? h)%N = (u =? h)%N) ->
  Forall (eq h) pattern ->
  startsWith (map f s) pattern = startsWith s pattern.
Proof.
  intros Hf Hpat. revert s.
  induction Hpat as [| p pattern' Hp Hrest IH]; intros s; [reflexivity |].
  subst p. destruct s as [| c rest]; [reflexivity |].
  cbn [map startsWith]. now rewrite Hf, IH.
Qed.

Lemma includes_map_fixed (f : N -> N) (h : N) (s pattern : jsstring) :
  (forall u, (f u =? h)%N = (u =? h)%N) ->
  Forall (eq h) pattern ->
  includes (map f s) pattern = includes s pattern.
Proof.
  intros Hf Hpat. induction s as [| c rest IH].
  - reflexivity.
  - change (includes (map f (c :: rest)) pattern)
      with (startsWith (map f (c :: rest)) pattern || includes (map f rest) pattern).
    change (includes (c :: rest) pattern)
      with (startsWith (c :: rest) pattern || includes rest pattern).
    now rewrite (startsWith_map_fixed f h (c :: rest) pattern Hf Hpat), IH.
Qed.

Lemma startsWith_map (f : N -> N) (s pattern : jsstring) :
  startsWith s pattern = true ->
  startsWith (map f s) (map f pattern) = true.
Proof.
  revert s. induction pattern as [| p pattern' IH]; intros s; [reflexivity |].
  destruct s as [| c rest]; [discriminate |].
  cbn [map startsWith]. rewrite !andb_true_iff, !N.eqb_eq.
  intros [-> H]. split; [reflexivity | now apply IH].
Qed.

Lemma asciiLowerUnit_hyphen (u : N) :
  (asciiLowerUnit u =? 45)%N = (u =? 45)%N.
Proof.
  unfold asciiLowerUnit.
  destruct ((65 <=? u) && (u <=? 90))%N eqn:Hupper; [| reflexivity].
  apply andb_true_iff in Hupper. destruct Hupper as [Hlo Hhi].
  apply N.leb_le in Hlo. apply N.leb_le in Hhi.
  transitivity false; [| symmetry]; apply N.eqb_neq; lia.
Qed.

Lemma asciiLowerUnit_ascii (u : N) : isAscii u -> isAscii (asciiLowerUnit u).
Proof.
  unfold isAscii, asciiLowerUnit. intros Hu.
  destruct ((65 <=? u) && (u <=? 90))%N eqn:Hupper; [| exact Hu].
  apply andb_true_iff in Hupper. destruct Hupper as [_ Hhi].
  apply N.leb_le in Hhi. lia.
Qed.

Lemma asciiLowerUnit_idempotent (u : N) :
  asciiLowerUnit (asciiLowerUnit u) = asciiLowerUnit u.
Proof.
  unfold asciiLowerUnit.
  destruct ((65 <=? u) && (u <=? 90))%N eqn:Hupper.
  - apply andb_true_iff in Hupper. destruct Hupper as [Hlo Hhi].
    apply N.leb_le in Hlo. apply N.leb_le in Hhi.
    replace (u + 32 <=? 90)%N with false by (symmetry; apply N.leb_gt; lia).
    now rewrite andb_false_r.
  - now rewrite Hupper.
Qed.

(** Without surrogates, iteration by code point is iteration by unit. *)
Lemma codePoints_ascii (s : jsstring) :
  Forall isAscii s -> codePoints s = splitUnits s.
Proof.
  induction 1 as [| u rest Hu Hrest IH]; [reflexivity |].
  destruct rest as [| w t]; [reflexivity |].
  change (codePoints (u :: w :: t))
    with (if isHighSurrogate u && isLowSurrogate w
          then [u; w] :: codePoints t
          else [u] :: codePoints (w :: t)).
  assert (isHighSurrogate u = false) as Hhigh.
  { unfold isHighSurrogate, isAscii in *.
    replace (55296 <=? u)%N with false by (symmetry; apply N.leb_gt; lia).
    reflexivity. }
  rewrite Hhigh, IH. reflexivity.
Qed.

(** [Number::toString] on integer values: decimal digits up to 2^53,
    the shortest digits that read back as the same double above, zeros
    appended below 10^21 and the exponent form from there on. *)
Example ofZ_prints_numbers :
  ofZ 0 = str "0"
  /\ ofZ 37 = str "37"
  /\ ofZ (-1) = str "-1"
  /\ ofZ (2 ^ 53) = str "9007199254740992"
  /\ ofZ (2 ^ 60) = str "1152921504606847000"
  /\ ofZ (- 2 ^ 64) = str "-18446744073709552000"
  /\ ofZ (10 ^ 21) = str "1e+21"
  /\ ofZ (2 ^ 70) = str "1.1805916207174113e+21".
Proof.
  repeat (split; [vm_compute; reflexivity |]). vm_compute. reflexivity.
Qed.

(** Up to 2^53 in size an integer is printed digit by digit. *)
Lemma ofZ_decimal (z : Z) :
  0 <= z <= 2 ^ 53 -> ofZ z = decimal z.
Proof.
  intros [Hlow Hhigh]. unfold ofZ, positiveToString.
  destruct (Z.ltb_spec z 0); [lia |].
  destruct (Z.leb_spec z (2 ^ 53)); [reflexivity | lia].
Qed.

End JSMore.

(** ** More on the WAVE codec and the name validator *)

Section WaveMore.

Import Wave.
Open Scope Z_scope.

Variable toLowerCase : jsstring -> jsstring.

Hypothesis toLowerCase_ascii :
  forall s, Forall isAscii s -> toLowerCase s = map asciiLowerUnit s.

Lemma indexOf_WAVE_CHARS_range (sub : jsstring) :
  indexOf WAVE_CHARS sub = -1 \/ 0 <= indexOf WAVE_CHARS sub <= 36.
Proof.
  destruct sub as [| p sub'].
  - right. unfold indexOf. rewrite indexOfFrom_empty. lia.
  - unfold indexOf.
    destruct (indexOfFrom_range WAVE_CHARS (p :: sub')) with (i := 0) as [H | H];
      [discriminate | now left | right].
    rewrite WAVE_CHARS_length in H. lia.
Qed.

(** X14. [charToIndex] throws "Expected single character" exactly for
    inputs whose length is not 1, throws "Invalid WAVE character" exactly
    when the lowercased character does not occur in the alphabet, and
    otherwise returns a position in 0..36.  [charToOutputIndex] throws in
    the same cases with the same message and otherwise returns that
    position plus one, in 1..37: never 0, the Claim Token output. *)
Theorem charToIndex_outcomes (char : jsstring) :
  match charToIndex toLowerCase char with
  | Ok idx =>
      JS.length char = 1
      /\ idx = indexOf WAVE_CHARS (toLowerCase char)
      /\ 0 <= idx <= 36
  | Throw message =>
      (JS.length char <> 1
       /\ message = str "Expected single character, got: " ++ quoted char)
      \/ (JS.length char = 1
          /\ indexOf WAVE_CHARS (toLowerCase char) = -1
          /\ message = str "Invalid WAVE character: " ++ quoted char)
  end
  /\ match charToOutputIndex toLowerCase char with
     | Ok out => charToIndex toLowerCase char = Ok (out - 1) /\ 1 <= out <= 37
     | Throw message => charToIndex toLowerCase char = Throw message
     end.
Proof.
  assert (Hfirst :
    match charToIndex toLowerCase char with
    | Ok idx =>
        JS.length char = 1
        /\ idx = indexOf WAVE_CHARS (toLowerCase char)
        /\ 0 <= idx <= 36
    | Throw message =>
        (JS.length char <> 1
         /\ message = str "Expected single character, got: " ++ quoted char)
        \/ (JS.length char = 1
            /\ indexOf WAVE_CHARS (toLowerCase char) = -1
            /\ message = str "Invalid WAVE character: " ++ quoted char)
    end).
  { unfold charToIndex.
    destruct (Z.eqb_spec (JS.length char) 1) as [Hlen | Hlen]; simpl negb; cbv iota.
    - cbv zeta.
      destruct (Z.eqb_spec (indexOf WAVE_CHARS (toLowerCase char)) (-1)) as [Hidx | Hidx].
      + right. repeat split; assumption.
      + repeat split; try assumption; try reflexivity;
          destruct (indexOf_WAVE_CHARS_range (toLowerCase char)); lia.
    - left. split; [assumption | reflexivity]. }
  split; [exact Hfirst |].
  unfold charToOutputIndex.
  destruct (charToIndex toLowerCase char) as [idx | message]; simpl bind.
  - split; [f_equal; lia | lia].
  - reflexivity.
Qed.

(** X15. For a single ASCII character, [charToIndex] accepts exactly the
    letters of either case, the digits and the hyphen; an uppercase
    letter gets the index of its lowercase form; every other ASCII
    character is refused with "Invalid WAVE character". *)
Theorem charToIndex_ascii (u : N) :
  (u < 128)%N ->
  (In (asciiLowerUnit u) WAVE_CHARS <->
   (97 <= u <= 122 \/ 65 <= u <= 90 \/ 48 <= u <= 57 \/ u = 45)%N)
  /\ (In (asciiLowerUnit u) WAVE_CHARS ->
      charToIndex toLowerCase [u] = Ok (indexOf WAVE_CHARS [asciiLowerUnit u])
      /\ charToIndex toLowerCase [asciiLowerUnit u] = charToIndex toLowerCase [u])
  /\ (~ In (asciiLowerUnit u) WAVE_CHARS ->
      charToIndex toLowerCase [u]
      = Throw (str "Invalid WAVE character: " ++ quoted [u])).
Proof.
  intros Hu.
  assert (toLowerCase [u] = [asciiLowerUnit u]) as Hlow.
  { rewrite toLowerCase_ascii; [reflexivity |]. constructor; [exact Hu | constructor]. }
  split; [| split].
  - assert (forallb
              (fun n =>
                 let c := N.of_nat n in
                 Bool.eqb (existsb (N.eqb (asciiLowerUnit c)) WAVE_CHARS)
                          (((97 <=? c) && (c <=? 122)) || ((65 <=? c) && (c <=? 90))
                           || ((48 <=? c) && (c <=? 57)) || (c =? 45))%N)
              (seq 0 128) = true) as Hall by (vm_compute; reflexivity).
    rewrite forallb_forall in Hall. specialize (Hall (N.to_nat u)).
    assert (In (N.to_nat u) (seq 0 128)) as Hin by (apply in_seq; lia).
    specialize (Hall Hin). cbv zeta in Hall. rewrite N2Nat.id in Hall.
    apply Bool.eqb_prop in Hall.
    assert (In (asciiLowerUnit u) WAVE_CHARS <->
            existsb (N.eqb (asciiLowerUnit u)) WAVE_CHARS = true) as Hmem.
    { rewrite existsb_exists. split.
      - intros H. exists (asciiLowerUnit u). split; [exact H | apply N.eqb_refl].
      - intros [d [Hd Heq]]. apply N.eqb_eq in Heq. now subst. }
    rewrite Hmem, Hall.
    rewrite !orb_true_iff, !andb_true_iff, !N.leb_le, N.eqb_eq. tauto.
  - intros Hin. split.
    + apply charToIndex_lower; [reflexivity | exact Hlow | exact Hin].
    + rewrite (charToIndex_symbol toLowerCase toLowerCase_ascii _ Hin).
      symmetry. apply charToIndex_lower; [reflexivity | exact Hlow | exact Hin].
  - intros Hnot. unfold charToIndex. rewrite Hlow.
    change (JS.length [u] =? 1) with true. simpl negb. cbv iota zeta.
    unfold indexOf. rewrite (indexOfFrom_notin _ _ Hnot). reflexivity.
Qed.

(** X16. For an index that is a number with an integer value (a double
    without fraction; a fraction or NaN between the bounds makes the
    code return [undefined], and is no input here): [indexToChar] throws
    "Invalid WAVE index" exactly outside 0..36, the index printed as
    [Number::toString] prints it, and otherwise returns one symbol of the
    alphabet, which [charToIndex] sends back to the index;
    [outputIndexToChar] throws its own "Invalid branch output index"
    exactly outside 1..37 (so for 0, the Claim Token output) and is
    [indexToChar] of the index minus one inside. *)
Theorem index_decoders (index : Z) :
  isDouble index ->
  (index < 0 \/ 36 < index ->
   indexToChar index
   = Throw (str "Invalid WAVE index: " ++ ofZ index ++ str " (must be 0-36)"))
  /\ (0 <= index <= 36 ->
      exists c, indexToChar index = Ok [c] /\ In c WAVE_CHARS
                /\ charToIndex toLowerCase [c] = Ok index)
  /\ (index < 1 \/ 37 < index ->
      outputIndexToChar index
      = Throw (str "Invalid branch output index: " ++ ofZ index
               ++ str " (must be 1-37)"))
  /\ (1 <= index <= 37 -> outputIndexToChar index = indexToChar (index - 1)).
Proof.
  intros _.
  split; [| split; [| split]].
  - intros Hout. unfold indexToChar. rewrite WAVE_CHARS_length.
    destruct (Z.ltb_spec index 0); [reflexivity |].
    destruct (Z.geb_spec index 37); [reflexivity | lia].
  - intros Hin. unfold indexToChar. rewrite WAVE_CHARS_length.
    destruct (Z.ltb_spec index 0); [lia |].
    destruct (Z.geb_spec index 37); [lia |]. simpl orb. cbv iota.
    destruct (WAVE_CHARS_positions index) as [c [Hat [Hc Hidx]]]; [lia |].
    exists c. rewrite Hat. repeat split; [exact Hc |].
    rewrite (charToIndex_symbol toLowerCase toLowerCase_ascii c Hc). now rewrite Hidx.
  - intros Hout. unfold outputIndexToChar.
    destruct (Z.ltb_spec index 1); [reflexivity |].
    destruct (Z.gtb_spec index 37); [reflexivity | lia].
  - intros Hin. unfold outputIndexToChar.
    destruct (Z.ltb_spec index 1); [lia |].
    destruct (Z.gtb_spec index 37); [lia | reflexivity].
Qed.

Lemma firstInvalidChar_None_iff (s : jsstring) :
  firstInvalidChar (codePoints s) = None <-> Forall (fun u => In u WAVE_CHARS) s.
Proof.
  split.
  - apply (firstInvalidChar_bounded (List.length s)). lia.
  - apply firstInvalidChar_symbols.
Qed.

(** The names [validateWaveName] accepts. *)
Lemma validateWaveName_valid_spec (name : jsstring) :
  valid (validateWaveName toLowerCase name) = true <->
  name <> []
  /\ JS.length name <= 63
  /\ startsWith name (str "-") = false
  /\ endsWith name (str "-") = false
  /\ (includes name (str "--") = true -> startsWith name (str "xn--") = true)
  /\ Forall (fun u => In u WAVE_CHARS) (toLowerCase name).
Proof.
  unfold validateWaveName.
  destruct name as [| u rest].
  { simpl. split; [discriminate | intros [H _]; congruence]. }
  simpl falsy. rewrite orb_false_l.
  replace (JS.length (u :: rest) =? 0) with false
    by (symmetry; apply Z.eqb_neq; unfold JS.length; simpl List.length; lia).
  destruct (JS.length (u :: rest) >? MAX_NAME_LENGTH) eqn:Hlen.
  { rewrite Z.gtb_ltb in Hlen. apply Z.ltb_lt in Hlen. unfold MAX_NAME_LENGTH in Hlen.
    simpl valid. split; [discriminate | intros [_ [H _]]; lia]. }
  rewrite Z.gtb_ltb in Hlen. apply Z.ltb_ge in Hlen. unfold MAX_NAME_LENGTH in Hlen.
  destruct (startsWith (u :: rest) (str "-")) eqn:Hstart.
  { simpl valid. split; [discriminate | intros [_ [_ [H _]]]; discriminate]. }
  destruct (endsWith (u :: rest) (str "-")) eqn:Hend.
  { simpl valid. split; [discriminate | intros [_ [_ [_ [H _]]]]; discriminate]. }
  pose proof (firstInvalidChar_None_iff (toLowerCase (u :: rest))) as Hloop.
  destruct (includes (u :: rest) (str "--")) eqn:Hinc;
    destruct (startsWith (u :: rest) (str "xn--")) eqn:Hxn;
    simpl andb; cbv iota zeta;
    try (simpl valid; split;
         [discriminate | intros [_ [_ [_ [_ [H _]]]]]; specialize (H eq_refl); discriminate]).
  all: destruct (firstInvalidChar (codePoints (toLowerCase (u :: rest)))) as [ch |];
    simpl valid.
  all: try (split; [discriminate |];
            intros [_ [_ [_ [_ [_ H]]]]]; apply Hloop in H; discriminate).
  all: split; [intros _ | reflexivity].
  all: repeat split; try discriminate; try lia; try reflexivity; try (now apply Hloop).
Qed.

(** X9. [validateWaveName] accepts a name exactly when it is not empty,
    has at most 63 code units, neither starts nor ends with a hyphen,
    holds "--" only if it starts with "xn--" as written, and every code
    unit of its lowercase form is one of the 37 symbols. *)
Theorem validateWaveName_accepts_iff (name : jsstring) :
  valid (validateWaveName toLowerCase name) = true <->
  name <> []
  /\ JS.length name <= 63
  /\ startsWith name (str "-") = false
  /\ endsWith name (str "-") = false
  /\ (includes name (str "--") = true -> startsWith name (str "xn--") = true)
  /\ Forall (fun u => In u WAVE_CHARS) (toLowerCase name).
Proof. exact (validateWaveName_valid_spec name). Qed.

Lemma firstInvalidChar_units (pre post : jsstring) (c : N) :
  Forall (fun u => In u WAVE_CHARS) pre ->
  ~ In c WAVE_CHARS ->
  firstInvalidChar (splitUnits (pre ++ c :: post)) = Some [c].
Proof.
  intros Hpre Hc. unfold splitUnits.
  induction Hpre as [| u pre' Hu Hpre' IH].
  - change (firstInvalidChar (map (fun d => [d]) ([] ++ c :: post)))
      with (if negb (includes WAVE_CHARS [c]) then Some [c]
            else firstInvalidChar (map (fun d => [d]) post)).
    replace (includes WAVE_CHARS [c]) with false; [reflexivity |].
    symmetry. apply not_true_is_false. now rewrite includes_unit.
  - change (firstInvalidChar (map (fun d => [d]) ((u :: pre') ++ c :: post)))
      with (if negb (includes WAVE_CHARS [u]) then Some [u]
            else firstInvalidChar (map (fun d => [d]) (pre' ++ c :: post))).
    replace (includes WAVE_CHARS [u]) with true
      by (symmetry; now apply includes_unit).
    exact IH.
Qed.

(** X10. For a name written in ASCII that passes the empty, length and
    hyphen rules, the error names the first character of the lowercased
    name that is not one of the 37 symbols. *)
Theorem validateWaveName_first_invalid_character (name pre post : jsstring) (c : N) :
  Forall isAscii name ->
  name <> [] ->
  JS.length name <= 63 ->
  startsWith name (str "-") = false ->
  endsWith name (str "-") = false ->
  (includes name (str "--") = true -> startsWith name (str "xn--") = true) ->
  toLowerCase name = pre ++ c :: post ->
  Forall (fun u => In u WAVE_CHARS) pre ->
  ~ In c WAVE_CHARS ->
  validateWaveName toLowerCase name
  = fail (str "Invalid character: " ++ quoted [c]).
Proof.
  intros Hascii Hne Hlen Hstart Hend Hdouble Hlow Hpre Hc.
  unfold validateWaveName.
  destruct name as [| u rest]; [congruence |].
  simpl falsy. rewrite orb_false_l.
  replace (JS.length (u :: rest) =? 0) with false
    by (symmetry; apply Z.eqb_neq; unfold JS.length; simpl List.length; lia).
  replace (JS.length (u :: rest) >? MAX_NAME_LENGTH) with false
    by (symmetry; rewrite Z.gtb_ltb; apply Z.ltb_ge; unfold MAX_NAME_LENGTH; lia).
  rewrite Hstart, Hend.
  assert (includes (u :: rest) (str "--")
          && negb (startsWith (u :: rest) (str "xn--")) = false) as Hrule.
  { destruct (includes (u :: rest) (str "--")); [| reflexivity].
    now rewrite Hdouble. }
  rewrite Hrule. cbv zeta.
  assert (Forall isAscii (toLowerCase (u :: rest))) as Hlowascii.
  { rewrite (toLowerCase_ascii _ Hascii). apply Forall_map.
    revert Hascii. apply Forall_impl. intros w. apply asciiLowerUnit_ascii. }
  rewrite (codePoints_ascii _ Hlowascii), Hlow.
  now rewrite (firstInvalidChar_units pre post c Hpre Hc).
Qed.

(** X11. Lowercasing a valid name written in ASCII gives a valid name
    with the same character path: the path depends on the lowercase
    form only. *)
Theorem lowercase_keeps_valid_and_path (name : jsstring) :
  Forall isAscii name ->
  valid (validateWaveName toLowerCase name) = true ->
  valid (validateWaveName toLowerCase (toLowerCase name)) = true
  /\ toLowerCase (toLowerCase name) = toLowerCase name
  /\ getCharacterPath toLowerCase (toLowerCase name)
     = getCharacterPath toLowerCase name.
Proof.
  intros Hascii Hvalid.
  pose proof (valid_name_symbols toLowerCase name Hvalid) as Hsym.
  pose proof (toLowerCase_symbols toLowerCase toLowerCase_ascii _ Hsym) as Hidem.
  apply validateWaveName_valid_spec in Hvalid.
  destruct Hvalid as [Hne [Hlen [Hstart [Hend [Hdouble _]]]]].
  assert (Hlow : toLowerCase name = map asciiLowerUnit name)
    by now apply toLowerCase_ascii.
  assert (Hvalid' : valid (validateWaveName toLowerCase (toLowerCase name)) = true).
  { apply validateWaveName_valid_spec. rewrite Hidem. rewrite Hlow in *.
    split; [| split; [| split; [| split; [| split]]]].
    - destruct name; [congruence | discriminate].
    - unfold JS.length in *. now rewrite length_map.
    - rewrite (startsWith_map_fixed asciiLowerUnit 45%N name (str "-")
                 asciiLowerUnit_hyphen); [exact Hstart |].
      repeat constructor.
    - unfold endsWith in *. rewrite <- map_rev.
      rewrite (startsWith_map_fixed asciiLowerUnit 45%N (rev name) (rev (str "-"))
                 asciiLowerUnit_hyphen); [exact Hend |].
      repeat constructor.
    - rewrite (includes_map_fixed asciiLowerUnit 45%N name (str "--")
                 asciiLowerUnit_hyphen) by (repeat constructor).
      intros Hinc. specialize (Hdouble Hinc).
      exact (startsWith_map asciiLowerUnit name (str "xn--") Hdouble).
    - exact Hsym. }
  split; [exact Hvalid' | split; [exact Hidem |]].
  rewrite (getCharacterPath_valid toLowerCase toLowerCase_ascii _ Hvalid').
  rewrite Hidem. symmetry.
  apply (getCharacterPath_valid toLowerCase toLowerCase_ascii).
  apply validateWaveName_valid_spec. repeat split; assumption.
Qed.

Lemma concat_splitUnits (s : jsstring) : List.concat (splitUnits s) = s.
Proof.
  unfold splitUnits. induction s as [| u rest IH]; [reflexivity |].
  simpl. now rewrite IH.
Qed.

Lemma decode_entries (s : jsstring) :
  Forall (fun u => In u WAVE_CHARS) s ->
  mapM (fun entry => outputIndexToChar (outputIndex entry)) (map entryOf s)
  = Ok (splitUnits s).
Proof.
  induction 1 as [| u rest Hu Hrest IH]; [reflexivity |].
  cbn [map mapM]. rewrite IH.
  destruct (WAVE_CHARS_symbols u Hu) as [_ [_ [Hidx Hat]]].
  unfold entryOf at 1. cbn [outputIndex].
  rewrite outputIndexToChar_in_range by lia.
  replace (indexOf WAVE_CHARS [u] + 1 - 1) with (indexOf WAVE_CHARS [u]) by lia.
  rewrite Hat. reflexivity.
Qed.

(** X12. For a valid name every entry of the character path has an
    alphabet symbol as [char], an [index] in 0..36 and an [outputIndex]
    in 1..37, below [WAVE_OUTPUT_COUNT] and never 0; the path is as long
    as the lowercased name, so between 1 and 63 entries for a name
    written in ASCII. *)
Theorem getCharacterPath_bounds (name : jsstring) :
  valid (validateWaveName toLowerCase name) = true ->
  exists path,
    getCharacterPath toLowerCase name = Ok path
    /\ List.length path = List.length (toLowerCase name)
    /\ Forall (fun entry =>
                 0 <= index entry <= 36
                 /\ 1 <= outputIndex entry < WAVE_OUTPUT_COUNT
                 /\ exists c, char entry = [c] /\ In c WAVE_CHARS) path
    /\ (Forall isAscii name -> (1 <= List.length path <= 63)%nat).
Proof.
  intros Hvalid. eexists.
  split; [exact (getCharacterPath_valid toLowerCase toLowerCase_ascii name Hvalid) |].
  pose proof (valid_name_symbols toLowerCase name Hvalid) as Hsym.
  split; [now rewrite length_map | split].
  - apply Forall_map. revert Hsym. apply Forall_impl. intros u Hu.
    destruct (WAVE_CHARS_symbols u Hu) as [_ [_ [Hidx _]]].
    cbn [index outputIndex char]. unfold WAVE_OUTPUT_COUNT.
    repeat split; try lia. now exists u.
  - intros Hascii. rewrite length_map, (toLowerCase_ascii name Hascii), length_map.
    apply validateWaveName_valid_spec in Hvalid.
    destruct Hvalid as [Hne [Hlen _]]. unfold JS.length in Hlen.
    destruct name; [congruence |]. simpl List.length in *. lia.
Qed.

(** X13. The path can be decoded: for a valid name, applying
    [outputIndexToChar] to the [outputIndex] of each entry and joining
    the characters gives the lowercased name back, and two valid names
    with the same path have the same lowercase form. *)
Theorem getCharacterPath_decodes (name : jsstring) :
  valid (validateWaveName toLowerCase name) = true ->
  (exists path,
     getCharacterPath toLowerCase name = Ok path
     /\ (chars <- mapM (fun entry => outputIndexToChar (outputIndex entry)) path ;;
         Ok (List.concat chars)) = Ok (toLowerCase name))
  /\ (forall other,
        valid (validateWaveName toLowerCase other) = true ->
        getCharacterPath toLowerCase other = getCharacterPath toLowerCase name ->
        toLowerCase other = toLowerCase name).
Proof.
  intros Hvalid.
  pose proof (getCharacterPath_valid toLowerCase toLowerCase_ascii name Hvalid) as Hpath.
  pose proof (valid_name_symbols toLowerCase name Hvalid) as Hsym.
  split.
  - eexists. split; [exact Hpath |].
    change (fun u => mkPathEntry [u] (indexOf WAVE_CHARS [u]) (indexOf WAVE_CHARS [u] + 1))
      with entryOf.
    rewrite (decode_entries _ Hsym). simpl bind. now rewrite concat_splitUnits.
  - intros other Hother Hsame.
    rewrite Hpath, (getCharacterPath_valid toLowerCase toLowerCase_ascii other Hother)
      in Hsame.
    injection Hsame as Hsame.
    apply (f_equal (map char)) in Hsame. rewrite !map_map in Hsame.
    cbn [char] in Hsame.
    apply (f_equal (@List.concat N)) in Hsame.
    change (map (fun u => [u]) (toLowerCase other)) with (splitUnits (toLowerCase other))
      in Hsame.
    change (map (fun u => [u]) (toLowerCase name)) with (splitUnits (toLowerCase name))
      in Hsame.
    now rewrite !concat_splitUnits in Hsame.
Qed.

Lemma filter_all {A : Type} (f : A -> bool) (l : list A) :
  Forall (fun x => f x = true) l -> filter f l = l.
Proof.
  induction 1 as [| x rest Hx Hrest IH]; [reflexivity |].
  simpl. now rewrite Hx, IH.
Qed.

Lemma nonEmpty_label (label : jsstring) :
  label <> [] -> (JS.length label >? 0) = true.
Proof. destruct label; [congruence | reflexivity]. Qed.

Lemma parseLabels_join (labels : list jsstring) :
  Forall (fun label => label <> [] /\ ~ In 46%N label) labels ->
  parseLabels (joinLabels labels) = labels.
Proof.
  intros Hall. unfold parseLabels, joinLabels.
  destruct labels as [| l0 rest]; [reflexivity |].
  change (str ".") with [46%N].
  rewrite split_join_pieces.
  - apply filter_all. revert Hall. apply Forall_impl.
    intros label [Hne _]. now apply nonEmpty_label.
  - discriminate.
  - revert Hall. apply Forall_impl. intros label [_ Hdot]. exact Hdot.
Qed.

Lemma parseLabels_labels (domain : jsstring) :
  Forall (fun label => label <> [] /\ ~ In 46%N label) (parseLabels domain).
Proof.
  apply Forall_forall. intros label Hin.
  apply parseLabels_In in Hin. destruct Hin as [Hin Hne].
  split; [exact Hne |].
  pose proof (split_pieces 46%N domain) as Hpieces.
  rewrite Forall_forall in Hpieces. now apply Hpieces.
Qed.

(** [split] of a concatenation at a separator. *)
Lemma split_concat (sep : N) (a b : jsstring) :
  split sep (a ++ sep :: b) = split sep a ++ split sep b.
Proof.
  induction a as [| c rest IH].
  - change (split sep ([] ++ sep :: b))
      with (if (sep =? sep)%N then [] :: split sep b
            else match split sep b with
                 | piece :: more => (sep :: piece) :: more
                 | [] => [[sep]]
                 end).
    now rewrite N.eqb_refl.
  - change (split sep ((c :: rest) ++ sep :: b))
      with (if (c =? sep)%N then [] :: split sep (rest ++ sep :: b)
            else match split sep (rest ++ sep :: b) with
                 | piece :: more => (c :: piece) :: more
                 | [] => [[c]]
                 end).
    rewrite IH. cbn [split].
    pose proof (split_nonempty sep rest) as Hne.
    destruct (c =? sep)%N; [reflexivity |].
    destruct (split sep rest) as [| piece more]; [congruence | reflexivity].
Qed.

Lemma parseLabels_concat (a b : jsstring) :
  parseLabels (a ++ str "." ++ b) = parseLabels a ++ parseLabels b.
Proof.
  unfold parseLabels. change (str "." ++ b) with (46%N :: b).
  now rewrite split_concat, filter_app.
Qed.

(** [validateDomain] sees its input through [parseLabels] only. *)
Lemma validateDomain_labels (d d' : jsstring) :
  parseLabels d = parseLabels d' ->
  validateDomain toLowerCase d = validateDomain toLowerCase d'.
Proof. intros H. unfold validateDomain. now rewrite H. Qed.

Lemma validateDomain_pass_iff (domain : jsstring) :
  validateDomain toLowerCase domain = pass <->
  parseLabels domain <> []
  /\ (List.length (parseLabels domain) <= 127)%nat
  /\ Forall (fun label => valid (validateWaveName toLowerCase label) = true)
            (parseLabels domain).
Proof.
  unfold validateDomain.
  destruct (parseLabels domain) as [| l0 rest] eqn:Hlabels.
  { simpl. split; [discriminate | intros [H _]; congruence]. }
  replace (Z.of_nat (List.length (l0 :: rest)) =? 0) with false
    by (symmetry; apply Z.eqb_neq; simpl List.length; lia).
  destruct (Z.gtb_spec (Z.of_nat (List.length (l0 :: rest))) MAX_SUBDOMAIN_DEPTH)
    as [Hdeep | Hdeep]; unfold MAX_SUBDOMAIN_DEPTH in Hdeep.
  { split; [discriminate | intros [_ [H _]]; lia]. }
  pose proof (firstInvalidLabel_None toLowerCase (l0 :: rest)) as Hloop.
  destruct (firstInvalidLabel toLowerCase (l0 :: rest)) as [message |].
  - split; [discriminate |]. intros [_ [_ H]]. apply Hloop in H. discriminate.
  - split; [| reflexivity]. intros _.
    split; [discriminate | split; [lia | now apply Hloop]].
Qed.

(** X17. [parseLabels] undoes [joinLabels]: for labels that are not
    empty and hold no dot, parsing the joined domain gives the labels
    back, in order. *)
Theorem parseLabels_joinLabels (labels : list jsstring) :
  Forall (fun label => label <> [] /\ ~ In 46%N label) labels ->
  parseLabels (joinLabels labels) = labels.
Proof. exact (parseLabels_join labels). Qed.

(** X18. The labels [parseLabels] returns are never empty and never hold
    a dot, and joining them and parsing again changes nothing. *)
Theorem parseLabels_normal_form (domain : jsstring) :
  Forall (fun label => label <> [] /\ ~ In 46%N label) (parseLabels domain)
  /\ parseLabels (joinLabels (parseLabels domain)) = parseLabels domain.
Proof.
  split; [apply parseLabels_labels |].
  apply parseLabels_join, parseLabels_labels.
Qed.

(** X19. On an input without a dot [validateDomain] gives the verdict of
    [validateWaveName]; when the name is not empty and is rejected, the
    error is the name validator's, wrapped as an invalid label. *)
Theorem validateDomain_single_label (name : jsstring) :
  ~ In 46%N name ->
  valid (validateDomain toLowerCase name) = valid (validateWaveName toLowerCase name)
  /\ (name <> [] ->
      valid (validateWaveName toLowerCase name) = false ->
      validateDomain toLowerCase name
      = fail (str "Invalid label " ++ dquote ++ name ++ dquote ++ str ": "
              ++ render (error (validateWaveName toLowerCase name)))).
Proof.
  intros Hdot.
  assert (Hlabels : name <> [] -> parseLabels name = [name]).
  { intros Hne. unfold parseLabels. rewrite (split_piece 46%N name Hdot).
    cbn [filter]. now rewrite (nonEmpty_label name Hne). }
  split.
  - destruct name as [| u rest]; [reflexivity |].
    unfold validateDomain. rewrite Hlabels by discriminate.
    cbn [List.length firstInvalidLabel]. simpl Z.eqb. simpl Z.gtb. cbv iota.
    destruct (valid (validateWaveName toLowerCase (u :: rest))); reflexivity.
  - intros Hne Hbad. unfold validateDomain. rewrite (Hlabels Hne).
    cbn [List.length firstInvalidLabel]. simpl Z.eqb. simpl Z.gtb. cbv iota.
    rewrite Hbad. reflexivity.
Qed.

(** X20. Subdomains: when [a] and [b] are valid domains, [a.b] is valid
    if the two have at most 127 labels together and fails with the
    depth error otherwise. *)
Theorem validateDomain_subdomain (a b : jsstring) :
  validateDomain toLowerCase a = pass ->
  validateDomain toLowerCase b = pass ->
  let total := (List.length (parseLabels a) + List.length (parseLabels b))%nat in
  parseLabels (a ++ str "." ++ b) = parseLabels a ++ parseLabels b
  /\ ((total <= 127)%nat -> validateDomain toLowerCase (a ++ str "." ++ b) = pass)
  /\ ((total > 127)%nat ->
      validateDomain toLowerCase (a ++ str "." ++ b)
      = fail (str "Domain exceeds maximum depth of 127")).
Proof.
  intros Ha Hb total.
  apply validateDomain_pass_iff in Ha. destruct Ha as [Hane [Halen Haok]].
  apply validateDomain_pass_iff in Hb. destruct Hb as [Hbne [Hblen Hbok]].
  split; [apply parseLabels_concat | split].
  - intros Htotal. apply validateDomain_pass_iff. rewrite parseLabels_concat.
    split; [| split].
    + destruct (parseLabels a); [congruence | discriminate].
    + rewrite length_app. exact Htotal.
    + apply Forall_app. now split.
  - intros Htotal. unfold validateDomain. rewrite parseLabels_concat, length_app.
    fold total.
    replace (Z.of_nat total =? 0) with false by (symmetry; apply Z.eqb_neq; lia).
    replace (Z.of_nat total >? MAX_SUBDOMAIN_DEPTH) with true
      by (symmetry; rewrite Z.gtb_ltb; apply Z.ltb_lt; unfold MAX_SUBDOMAIN_DEPTH; lia).
    reflexivity.
Qed.

(** X21. Empty segments never matter to [validateDomain]: a leading dot,
    a trailing dot and a doubled dot leave the result, message included,
    as it is. *)
Theorem validateDomain_ignores_empty_segments (a b : jsstring) :
  validateDomain toLowerCase (str "." ++ a) = validateDomain toLowerCase a
  /\ validateDomain toLowerCase (a ++ str ".") = validateDomain toLowerCase a
  /\ validateDomain toLowerCase (a ++ str ".." ++ b)
     = validateDomain toLowerCase (a ++ str "." ++ b).
Proof.
  split; [| split]; apply validateDomain_labels.
  - change (str "." ++ a) with ([] ++ str "." ++ a).
    now rewrite parseLabels_concat.
  - change (str ".") with (str "." ++ []).
    rewrite parseLabels_concat. apply app_nil_r.
  - change (str ".." ++ b) with (str "." ++ (str "." ++ b)).
    rewrite !parseLabels_concat.
    change (str "." ++ b) with ([] ++ str "." ++ b).
    now rewrite parseLabels_concat.
Qed.

(** X23. For a name written in ASCII, [isPunycode] does not depend on
    the case of the letters, and a valid name that holds "--" is always
    one [isPunycode] recognises. *)
Theorem isPunycode_of_valid_name (name : jsstring) :
  Forall isAscii name ->
  isPunycode toLowerCase (toLowerCase name) = isPunycode toLowerCase name
  /\ (valid (validateWaveName toLowerCase name) = true ->
      includes name (str "--") = true ->
      isPunycode toLowerCase name = true).
Proof.
  intros Hascii.
  assert (Hlow : toLowerCase name = map asciiLowerUnit name)
    by now apply toLowerCase_ascii.
  assert (Hidem : toLowerCase (toLowerCase name) = toLowerCase name).
  { rewrite Hlow, toLowerCase_ascii.
    - rewrite map_map. apply map_ext. intros u. apply asciiLowerUnit_idempotent.
    - apply Forall_map. revert Hascii. apply Forall_impl.
      intros u. apply asciiLowerUnit_ascii. }
  split.
  - unfold isPunycode. now rewrite Hidem.
  - intros Hvalid Hinc. apply validateWaveName_valid_spec in Hvalid.
    destruct Hvalid as [_ [_ [_ [_ [Hdouble _]]]]].
    unfold isPunycode. rewrite Hlow.
    exact (startsWith_map asciiLowerUnit name (str "xn--") (Hdouble Hinc)).
Qed.

Section MetadataMore.

Variable Zone : Type.
Variable emptyZone : Zone.

(** X22. For every valid name, unless [mutable] is explicitly false, the
    record [createWaveMetadata] returns stores the name as given and
    carries a protocol list that [validateProtocols] accepts. *)
Theorem mutable_metadata_passes_validateProtocols (name : jsstring)
        (parentRef : option jsstring) (zone : option Zone)
        (options : option WaveOptions) :
  let given := match options with Some o => o | None => noOptions end in
  valid (validateWaveName toLowerCase name) = true ->
  opt_mutable given <> Some false ->
  exists metadata,
    createWaveMetadata toLowerCase emptyZone name parentRef zone options = Ok metadata
    /\ Wave.name metadata = Some name
    /\ data_name (data (app metadata)) = name
    /\ Glyph.validateProtocols (p metadata) = pass.
Proof.
  intros given Hvalid Hflag. unfold createWaveMetadata.
  rewrite Hvalid. simpl negb. cbv iota zeta. fold given.
  eexists. split; [reflexivity |].
  destruct (opt_mutable given) as [[|] |]; try congruence;
    destruct (truthy (opt_description given)); repeat split.
Qed.

End MetadataMore.

End WaveMore.

(** ** Script verification flags *)

Section FlagsFacts.

Import Flags.
Open Scope Z_scope.

Lemma toInt32_range (x : Z) : - 2 ^ 31 <= toInt32 x < 2 ^ 31.
Proof.
  unfold toInt32. cbv zeta.
  change (2 ^ 32) with 4294967296. change (2 ^ 31) with 2147483648.
  pose proof (Z.mod_pos_bound x 4294967296 ltac:(lia)) as Hu.
  destruct (Z.geb_spec (x mod 4294967296) 2147483648); lia.
Qed.

(** The bits of a converted operand: the low 32 bits of the number,
    with bit 31 repeated above. *)
Lemma toInt32_testbit (x n : Z) :
  0 <= n -> Z.testbit (toInt32 x) n = Z.testbit x (Z.min n 31).
Proof.
  intros Hn. unfold toInt32. cbv zeta.
  pose proof (Z.mod_pos_bound x (2 ^ 32) ltac:(reflexivity)) as Hu.
  assert (Hlow : forall k, 0 <= k < 32 ->
                           Z.testbit (x mod 2 ^ 32) k = Z.testbit x k).
  { intros k Hk. apply Z.mod_pow2_bits_low. lia. }
  set (u := x mod 2 ^ 32) in *.
  change (2 ^ 32) with 4294967296 in *. change (2 ^ 31) with 2147483648 in *.
  destruct (Z.geb_spec u 2147483648) as [Hneg | Hpos].
  - assert (Z.testbit x 31 = true) as Hsign.
    { rewrite <- Hlow by lia. apply Z.testbit_true; [lia |].
      change (2 ^ 31) with 2147483648.
      replace (u / 2147483648) with 1; [reflexivity |].
      apply Z.div_unique with (r := u - 2147483648); lia. }
    destruct (Z.le_gt_cases n 31) as [Hle | Hgt].
    + rewrite Z.min_l by lia. rewrite <- Hlow by lia.
      rewrite <- (Z.mod_pow2_bits_low (u - 4294967296) 32 n) by lia.
      f_equal. change (2 ^ 32) with 4294967296.
      rewrite <- (Z_mod_plus_full (u - 4294967296) 1 4294967296).
      replace (u - 4294967296 + 1 * 4294967296) with u by lia.
      apply Z.mod_small. lia.
    + rewrite Z.min_r by lia. rewrite Hsign.
      apply Z.bits_above_log2_neg; [lia |].
      set (w := Z.pred (- (u - 4294967296))).
      assert (0 <= w < 2147483648) as Hw by (unfold w; lia).
      destruct (Z.eq_dec w 0) as [-> | Hnz]; [simpl; lia |].
      apply Z.log2_lt_pow2; [lia |].
      apply Z.lt_le_trans with (2 ^ 31); [change (2 ^ 31) with 2147483648; lia |].
      apply Z.pow_le_mono_r; lia.
  - assert (Z.testbit x 31 = false) as Hsign.
    { rewrite <- Hlow by lia. apply Z.testbit_false; [lia |].
      change (2 ^ 31) with 2147483648.
      rewrite Z.div_small by lia. reflexivity. }
    destruct (Z.le_gt_cases n 31) as [Hle | Hgt].
    + rewrite Z.min_l by lia. apply Hlow. lia.
    + rewrite Z.min_r by lia. rewrite Hsign.
      unfold u. change 4294967296 with (2 ^ 32).
      apply Z.mod_pow2_bits_high. lia.
Qed.

Lemma min_min_31 (n : Z) : Z.min (Z.min n 31) 31 = Z.min n 31.
Proof. lia. Qed.

(** Equalities between results of the bitwise operators, bit by bit. *)
Ltac bitwise :=
  apply Z.bits_inj'; intros n Hn;
  repeat first
    [ rewrite Z.land_spec | rewrite Z.lor_spec | rewrite Z.lnot_spec by lia
    | rewrite toInt32_testbit by lia | rewrite min_min_31
    | rewrite Z.bits_0 ];
  repeat match goal with
         | |- context [ Z.testbit ?a ?k ] => destruct (Z.testbit a k)
         end;
  reflexivity.

Lemma toInt32_idempotent (x : Z) : toInt32 (toInt32 x) = toInt32 x.
Proof. bitwise. Qed.

Lemma toInt32_small (x : Z) : - 2 ^ 31 <= x < 2 ^ 31 -> toInt32 x = x.
Proof.
  intros Hx. unfold toInt32. cbv zeta.
  change (2 ^ 32) with 4294967296 in *. change (2 ^ 31) with 2147483648 in *.
  destruct (Z.neg_nonneg_cases x) as [Hneg | Hpos].
  - assert (x mod 4294967296 = x + 4294967296) as Hmod.
    { symmetry. apply Z.mod_unique with (q := -1); lia. }
    rewrite Hmod. destruct (Z.geb_spec (x + 4294967296) 2147483648); lia.
  - rewrite Z.mod_small by lia.
    destruct (Z.geb_spec x 2147483648); lia.
Qed.

Lemma bitAnd_absorb (flags flag : Z) : bitAnd (bitOr flags flag) flag = toInt32 flag.
Proof. unfold bitAnd, bitOr. bitwise. Qed.

Lemma bitAnd_cleared (flags flag : Z) : bitAnd (bitAnd flags (bitNot flag)) flag = 0.
Proof. unfold bitAnd, bitNot. bitwise. Qed.

(** X24. After [setFlag] the flag is reported by [hasFlag] (unless the
    flag has no bit at all in its low 32 bits), and after [clearFlag] it
    never is. *)
Theorem hasFlag_after_set_and_clear (flags flag : Z) :
  hasFlag (setFlag flags flag) flag = negb (toInt32 flag =? 0)
  /\ hasFlag (clearFlag flags flag) flag = false
  /\ (forall name, In (name, flag) ScriptFlags -> flag <> 0 ->
                   hasFlag (setFlag flags flag) flag = true).
Proof.
  unfold hasFlag, setFlag, clearFlag.
  rewrite bitAnd_absorb, bitAnd_cleared.
  split; [reflexivity | split; [reflexivity |]].
  intros name Hin Hnz. cbn [In ScriptFlags] in Hin.
  repeat (destruct Hin as [Hin | Hin];
          [injection Hin as _ <-; first [reflexivity | congruence] |]).
  destruct Hin.
Qed.

(** X25. [setFlag] and [clearFlag] return signed 32-bit integers that
    depend on the operands modulo 2^32 only; doing either twice is doing
    it once, and each undoes the other on the flag's bits. *)
Theorem setFlag_clearFlag_algebra (flags flag : Z) :
  (- 2 ^ 31 <= setFlag flags flag < 2 ^ 31)
  /\ (- 2 ^ 31 <= clearFlag flags flag < 2 ^ 31)
  /\ setFlag (flags + 2 ^ 32) flag = setFlag flags flag
  /\ clearFlag (flags + 2 ^ 32) flag = clearFlag flags flag
  /\ setFlag (setFlag flags flag) flag = setFlag flags flag
  /\ clearFlag (clearFlag flags flag) flag = clearFlag flags flag
  /\ clearFlag (setFlag flags flag) flag = clearFlag flags flag
  /\ setFlag (clearFlag flags flag) flag = setFlag flags flag.
Proof.
  assert (Hwrap : toInt32 (flags + 2 ^ 32) = toInt32 flags).
  { unfold toInt32. cbv zeta.
    replace (flags + 2 ^ 32) with (flags + 1 * 2 ^ 32) by lia.
    now rewrite Z_mod_plus_full. }
  assert (Hor : forall a b, toInt32 (Z.lor (toInt32 a) (toInt32 b))
                            = Z.lor (toInt32 a) (toInt32 b)) by (intros; bitwise).
  assert (Hand : forall a b, toInt32 (Z.land (toInt32 a) (toInt32 b))
                             = Z.land (toInt32 a) (toInt32 b)) by (intros; bitwise).
  unfold setFlag, clearFlag, bitOr, bitAnd, bitNot.
  split; [rewrite <- Hor; apply toInt32_range |].
  split; [rewrite <- Hand; apply toInt32_range |].
  split; [now rewrite Hwrap |].
  split; [now rewrite Hwrap |].
  split; [bitwise |].
  split; [bitwise |].
  split; bitwise.
Qed.

Lemma hasFlag_disjoint (flags a b : Z) :
  bitAnd a b = 0 ->
  hasFlag (setFlag flags a) b = hasFlag flags b
  /\ hasFlag (clearFlag flags a) b = hasFlag flags b.
Proof.
  intros Hdisjoint. unfold hasFlag, setFlag, clearFlag, bitAnd, bitOr, bitNot in *.
  assert (Hbits : forall n, 0 <= n ->
            Z.testbit a (Z.min n 31) && Z.testbit b (Z.min n 31) = false).
  { intros n Hn. rewrite <- !toInt32_testbit, <- Z.land_spec by lia.
    rewrite Hdisjoint. apply Z.bits_0. }
  split; f_equal; f_equal; apply Z.bits_inj'; intros n Hn;
    specialize (Hbits n Hn);
    repeat first
      [ rewrite Z.land_spec | rewrite Z.lor_spec | rewrite Z.lnot_spec by lia
      | rewrite toInt32_testbit by lia | rewrite min_min_31 ];
    destruct (Z.testbit a (Z.min n 31)); destruct (Z.testbit b (Z.min n 31));
    destruct (Z.testbit flags (Z.min n 31)); try reflexivity; discriminate Hbits.
Qed.

Lemma ScriptFlags_disjoint (n1 n2 : string) (v1 v2 : Z) :
  In (n1, v1) ScriptFlags -> In (n2, v2) ScriptFlags -> n1 <> n2 ->
  bitAnd v1 v2 = 0.
Proof.
  intros H1 H2 Hneq.
  assert (forallb (fun e1 =>
            forallb (fun e2 => String.eqb (fst e1) (fst e2)
                               || (bitAnd (snd e1) (snd e2) =? 0))
                    ScriptFlags) ScriptFlags = true) as Hall
      by (vm_compute; reflexivity).
  rewrite forallb_forall in Hall. specialize (Hall _ H1).
  rewrite forallb_forall in Hall. specialize (Hall _ H2).
  cbn [fst snd] in Hall. apply orb_true_iff in Hall.
  destruct Hall as [Hsame | Hzero].
  - apply String.eqb_eq in Hsame. congruence.
  - now apply Z.eqb_eq.
Qed.

(** X26. Setting or clearing one flag of [ScriptFlags] never changes
    what [hasFlag] answers for another flag of the table. *)
Theorem flags_are_independent (flags : Z) (n1 n2 : string) (v1 v2 : Z) :
  In (n1, v1) ScriptFlags -> In (n2, v2) ScriptFlags -> n1 <> n2 ->
  hasFlag (setFlag flags v1) v2 = hasFlag flags v2
  /\ hasFlag (clearFlag flags v1) v2 = hasFlag flags v2.
Proof.
  intros H1 H2 Hneq. apply hasFlag_disjoint.
  exact (ScriptFlags_disjoint n1 n2 v1 v2 H1 H2 Hneq).
Qed.

Lemma land_pow2 (a k : Z) :
  0 <= k -> Z.land a (2 ^ k) = if Z.testbit a k then 2 ^ k else 0.
Proof.
  intros Hk. apply Z.bits_inj'. intros n Hn.
  rewrite Z.land_spec, Z.pow2_bits_eqb by lia.
  destruct (Z.eqb_spec k n) as [-> | Hneq].
  - destruct (Z.testbit a n) eqn:Ha.
    + rewrite Z.pow2_bits_eqb by lia. now rewrite Z.eqb_refl.
    + now rewrite Z.bits_0.
  - rewrite andb_false_r. destruct (Z.testbit a k).
    + rewrite Z.pow2_bits_eqb by lia. symmetry. now apply Z.eqb_neq.
    + now rewrite Z.bits_0.
Qed.

(** For a one-bit flag, "all bits of the flag are set" and "some bit of
    the flag is set" are the same test. *)
Lemma singleBit_test (flags value : Z) :
  singleBit value = true ->
  (bitAnd flags value =? value) = hasFlag flags value.
Proof.
  unfold singleBit. rewrite existsb_exists. intros [k [Hk Hval]].
  apply in_seq in Hk. apply Z.eqb_eq in Hval. subst value.
  unfold hasFlag, bitAnd.
  assert (0 < 2 ^ Z.of_nat k < 2 ^ 31) as Hrange.
  { split; [apply Z.pow_pos_nonneg; lia |]. apply Z.pow_lt_mono_r; lia. }
  rewrite (toInt32_small (2 ^ Z.of_nat k)) by lia.
  rewrite land_pow2 by lia.
  destruct (Z.testbit (toInt32 flags) (Z.of_nat k)).
  - rewrite Z.eqb_refl. symmetry. apply negb_true_iff, Z.eqb_neq. lia.
  - change (negb (0 =? 0)) with false. apply Z.eqb_neq. lia.
Qed.

(** X27. [getFlagNames] lists exactly the names of the [ScriptFlags]
    entries that [hasFlag] reports as set; SCRIPT_VERIFY_NONE is never
    listed. *)
Theorem getFlagNames_spec (flags : Z) (name : string) :
  (In name (getFlagNames flags) <->
   exists value, In (name, value) ScriptFlags /\ hasFlag flags value = true)
  /\ ~ In "SCRIPT_VERIFY_NONE"%string (getFlagNames flags).
Proof.
  assert (Hsingle : forall entry, In entry ScriptFlags ->
            snd entry = 0 \/ singleBit (snd entry) = true).
  { assert (forallb (fun entry => (snd entry =? 0) || singleBit (snd entry))
                    ScriptFlags = true) as Hall by (vm_compute; reflexivity).
    rewrite forallb_forall in Hall. intros entry Hin.
    specialize (Hall entry Hin). apply orb_true_iff in Hall.
    destruct Hall as [H | H]; [left; now apply Z.eqb_eq | now right]. }
  assert (Hzero : hasFlag flags 0 = false).
  { unfold hasFlag, bitAnd. change (toInt32 0) with 0. now rewrite Z.land_0_r. }
  assert (Hmem : forall n,
            In n (getFlagNames flags) <->
            exists value, In (n, value) ScriptFlags /\ hasFlag flags value = true).
  { intros n. unfold getFlagNames. rewrite in_map_iff. split.
    - intros [[n' value] [Hfst Hin]]. cbn [fst] in Hfst. subst n'.
      apply filter_In in Hin. destruct Hin as [Hin Htest]. cbn [snd] in Htest.
      apply andb_true_iff in Htest. destruct Htest as [Hnz Hall].
      exists value. split; [exact Hin |].
      destruct (Hsingle _ Hin) as [H0 | Hbit]; cbn [snd] in *.
      + subst value. discriminate Hnz.
      + now rewrite <- (singleBit_test flags value Hbit).
    - intros [value [Hin Hset]]. exists (n, value). split; [reflexivity |].
      apply filter_In. split; [exact Hin |]. cbn [snd].
      destruct (Hsingle _ Hin) as [H0 | Hbit]; cbn [snd] in *.
      + subst value. congruence.
      + rewrite (singleBit_test flags value Hbit), Hset, andb_true_r.
        apply negb_true_iff, Z.eqb_neq. intros ->. congruence. }
  split; [apply Hmem |].
  intros Hin. apply Hmem in Hin. destruct Hin as [value [Hin Hset]].
  cbn [In ScriptFlags] in Hin.
  destruct Hin as [Hin | Hin]; [injection Hin as <-; congruence |].
  repeat (destruct Hin as [Hin | Hin]; [discriminate Hin |]).
  destruct Hin.
Qed.

End FlagsFacts.

(** ** Opcode classes *)

Section OpcodeFacts.

Import Opcodes.
Open Scope Z_scope.

(** X28. [isRadiantOpcode] holds exactly of the opcodes 0xba..0xed; the
    introspection, reference and state-separator classes lie inside it
    and are pairwise disjoint; no push opcode and no re-enabled opcode is
    a Radiant opcode, and no re-enabled opcode is a push opcode. *)
Theorem opcode_classes (opcode : Z) :
  (isRadiantOpcode opcode = true <-> 0xba <= opcode <= 0xed)
  /\ (isIntrospectionOpcode opcode = true -> isRadiantOpcode opcode = true)
  /\ (isReferenceOpcode opcode = true -> isRadiantOpcode opcode = true)
  /\ (isStateSeparatorOpcode opcode = true -> isRadiantOpcode opcode = true)
  /\ (isIntrospectionOpcode opcode && isReferenceOpcode opcode = false)
  /\ (isIntrospectionOpcode opcode && isStateSeparatorOpcode opcode = false)
  /\ (isReferenceOpcode opcode && isStateSeparatorOpcode opcode = false)
  /\ (isPushOpcode opcode && isRadiantOpcode opcode = false)
  /\ (isReenabledOpcode opcode && isRadiantOpcode opcode = false)
  /\ (isReenabledOpcode opcode && isPushOpcode opcode = false).
Proof.
  assert (Hre : isReenabledOpcode opcode = true -> 126 <= opcode <= 153).
  { unfold isReenabledOpcode. cbv zeta. rewrite arrIncludes_In.
    cbn [In]. unfold OP_CAT, OP_SPLIT, OP_AND, OP_OR, OP_XOR, OP_DIV, OP_MOD,
      OP_MUL, OP_NUM2BIN, OP_BIN2NUM, OP_INVERT, OP_2MUL, OP_2DIV, OP_LSHIFT,
      OP_RSHIFT. lia. }
  unfold isRadiantOpcode, isIntrospectionOpcode, isReferenceOpcode,
    isStateSeparatorOpcode, isPushOpcode,
    OP_CHECKDATASIG, OP_CHECKDATASIGVERIFY, OP_REVERSEBYTES in *.
  destruct (isReenabledOpcode opcode);
    [specialize (Hre eq_refl) | clear Hre];
    rewrite ?andb_true_l, ?andb_false_l;
    rewrite ?orb_true_iff, ?andb_true_iff, ?orb_false_iff, ?andb_false_iff,
      ?Z.geb_le, ?Z.leb_le, ?Z.eqb_eq, ?Z.leb_gt, ?Z.eqb_neq;
    repeat match goal with
           | |- context [ (?a >=? ?b) = false ] =>
               replace ((a >=? b) = false) with ((b <=? a) = false)
                 by (now rewrite Z.geb_leb)
           end;
    rewrite ?Z.leb_gt; lia.
Qed.

End OpcodeFacts.

(** ** Error order of the name validator, and the size estimate *)

Section WaveErrors.

Import Wave.
Open Scope Z_scope.

Variable toLowerCase : jsstring -> jsstring.

Hypothesis toLowerCase_ascii :
  forall s, Forall isAscii s -> toLowerCase s = map asciiLowerUnit s.

(** X29. [validateWaveName] reports the first rule broken, in the order
    empty, length, leading hyphen, trailing hyphen, consecutive hyphens:
    a name of 1 to 63 code units that starts with a hyphen gets "cannot
    start with hyphen" whatever else is wrong with it, and so on down the
    list; the character check comes last. *)
Theorem validateWaveName_error_priority (name : jsstring) :
  (name = [] ->
   validateWaveName toLowerCase name = fail (str "Name cannot be empty"))
  /\ (name <> [] -> JS.length name <= 63 ->
      startsWith name (str "-") = true ->
      validateWaveName toLowerCase name = fail (str "Name cannot start with hyphen"))
  /\ (name <> [] -> JS.length name <= 63 ->
      startsWith name (str "-") = false ->
      endsWith name (str "-") = true ->
      validateWaveName toLowerCase name = fail (str "Name cannot end with hyphen"))
  /\ (name <> [] -> JS.length name <= 63 ->
      startsWith name (str "-") = false ->
      endsWith name (str "-") = false ->
      includes name (str "--") = true ->
      startsWith name (str "xn--") = false ->
      validateWaveName toLowerCase name
      = fail (str "Name cannot contain consecutive hyphens (except Punycode prefix)")).
Proof.
  assert (Hhead : name <> [] -> JS.length name <= 63 ->
            validateWaveName toLowerCase name
            = if startsWith name (str "-")
              then fail (str "Name cannot start with hyphen")
              else if endsWith name (str "-")
              then fail (str "Name cannot end with hyphen")
              else if includes name (str "--") && negb (startsWith name (str "xn--"))
              then fail (str "Name cannot contain consecutive hyphens (except Punycode prefix)")
              else match firstInvalidChar (codePoints (toLowerCase name)) with
                   | Some ch => fail (str "Invalid character: " ++ dquote ++ ch ++ dquote)
                   | None => pass
                   end).
  { intros Hne Hlen. unfold validateWaveName.
    destruct name as [| u rest]; [congruence |].
    simpl falsy. rewrite orb_false_l.
    replace (JS.length (u :: rest) =? 0) with false
      by (symmetry; apply Z.eqb_neq; unfold JS.length; simpl List.length; lia).
    replace (JS.length (u :: rest) >? MAX_NAME_LENGTH) with false
      by (symmetry; rewrite Z.gtb_ltb; apply Z.ltb_ge; unfold MAX_NAME_LENGTH; lia).
    reflexivity. }
  split; [intros ->; reflexivity |].
  split; [intros Hne Hlen Hstart; rewrite (Hhead Hne Hlen), Hstart; reflexivity |].
  split; [intros Hne Hlen Hstart Hend;
          rewrite (Hhead Hne Hlen), Hstart, Hend; reflexivity |].
  intros Hne Hlen Hstart Hend Hinc Hxn.
  rewrite (Hhead Hne Hlen), Hstart, Hend, Hinc, Hxn. reflexivity.
Qed.

(** X30. For a valid name and a number of updates from 0 up to the point
    where 65536 plus 500 per update reaches 2^53, the estimate is a
    finite number between 2048 and 65536 plus 500 per update, and for a
    valid name written in ASCII it is 1024 for each entry of the
    character path, 1024 for the claim and 500 per update. *)
Theorem estimateResolutionSize_of_valid_name (name : jsstring) (updateCount : Z) :
  valid (validateWaveName toLowerCase name) = true ->
  0 <= updateCount ->
  65536 + updateCount * 500 <= 2 ^ 53 ->
  exists size,
    estimateResolutionSize name (Some updateCount) = Finite size
    /\ 2048 + updateCount * 500 <= size <= 65536 + updateCount * 500
    /\ (Forall isAscii name ->
        exists path,
          getCharacterPath toLowerCase name = Ok path
          /\ size = (Z.of_nat (List.length path) + 1) * 1024 + updateCount * 500).
Proof.
  intros Hvalid Hcount Hbound.
  pose proof (getCharacterPath_valid toLowerCase toLowerCase_ascii name Hvalid) as Hpath.
  apply validateWaveName_valid_spec in Hvalid.
  destruct Hvalid as [Hne [Hlen _]].
  assert (1 <= JS.length name) as Hpos.
  { unfold JS.length. destruct name; [congruence | simpl List.length; lia]. }
  change (2 ^ 53) with 9007199254740992 in Hbound.
  eexists. split; [| split].
  - apply estimateResolutionSize_exact; [exact Hcount |].
    change (2 ^ 53) with 9007199254740992. lia.
  - lia.
  - intros Hascii. eexists. split; [exact Hpath |].
    unfold JS.length.
    now rewrite length_map, (toLowerCase_ascii name Hascii), length_map.
Qed.

End WaveErrors.

(** ** The further properties at concrete inputs *)

Section MoreInstances.

Import Wave.
Open Scope Z_scope.

Lemma validateProtocols_order_irrelevant_witness :
  Permutation [4; 1] [1; 4]
  /\ valid (Glyph.validateProtocols [4; 1]) = valid (Glyph.validateProtocols [1; 4]).
Proof.
  assert (Permutation [4; 1] [1; 4]) as Hperm by apply perm_swap.
  split; [exact Hperm |].
  exact (validateProtocols_order_irrelevant [4; 1] [1; 4] Hperm).
Defined.

Lemma validateProtocols_ignores_unlisted_witness :
  (99 = Glyph.GLYPH_DAT \/ 99 < 1 \/ 11 < 99)
  /\ valid (Glyph.validateProtocols [99; 2; 5]) = valid (Glyph.validateProtocols [2; 5]).
Proof.
  assert (99 = Glyph.GLYPH_DAT \/ 99 < 1 \/ 11 < 99) as Hx
      by (right; right; reflexivity).
  split; [exact Hx |].
  exact (validateProtocols_ignores_unlisted 99 [2; 5] Hx).
Defined.

Lemma validateProtocols_exclusion_first_witness :
  In Glyph.GLYPH_FT [1; 2; 3; 4; 5] /\ In Glyph.GLYPH_NFT [1; 2; 3; 4; 5]
  /\ Glyph.validateProtocols [1; 2; 3; 4; 5]
     = fail (str "Protocols GLYPH_FT and GLYPH_NFT are mutually exclusive").
Proof.
  assert (In Glyph.GLYPH_FT [1; 2; 3; 4; 5]) as Hft by (left; reflexivity).
  assert (In Glyph.GLYPH_NFT [1; 2; 3; 4; 5]) as Hnft by (right; left; reflexivity).
  split; [exact Hft | split; [exact Hnft |]].
  exact (validateProtocols_exclusion_first [1; 2; 3; 4; 5] Hft Hnft).
Defined.

Lemma validateProtocols_accepted_combinations_witness :
  valid (Glyph.validateProtocols [1; 4]) = true
  /\ In Glyph.GLYPH_FT [1; 4] /\ ~ In Glyph.GLYPH_MUT [1; 4].
Proof.
  assert (valid (Glyph.validateProtocols [1; 4]) = true) as Hvalid by reflexivity.
  split; [exact Hvalid |].
  destruct (validateProtocols_accepted_combinations [1; 4] Hvalid) as [Hdmint _].
  destruct Hdmint as [Hft [_ [Hmut _]]]; [right; left; reflexivity |].
  split; [exact Hft | exact Hmut].
Defined.

Lemma validateProtocols_modifier_has_base_witness :
  valid (Glyph.validateProtocols [2; 5]) = true
  /\ (In Glyph.GLYPH_FT [2; 5] \/ In Glyph.GLYPH_NFT [2; 5]).
Proof.
  assert (valid (Glyph.validateProtocols [2; 5]) = true) as Hvalid by reflexivity.
  split; [exact Hvalid |].
  apply (validateProtocols_modifier_has_base [2; 5] 5 Hvalid).
  - right; left; reflexivity.
  - right; left; reflexivity.
Defined.

Lemma validateWaveName_first_invalid_character_witness :
  asciiToLowerCase (str "al!ce?") = str "al" ++ 33%N :: str "ce?"
  /\ validateWaveName asciiToLowerCase (str "al!ce?")
     = fail (str "Invalid character: " ++ quoted (str "!")).
Proof.
  split; [reflexivity |].
  apply (validateWaveName_first_invalid_character asciiToLowerCase
           asciiToLowerCase_ascii (str "al!ce?") (str "al") (str "ce?") 33%N).
  - apply Forall_isAscii_check. reflexivity.
  - discriminate.
  - vm_compute. discriminate.
  - reflexivity.
  - reflexivity.
  - intros H. discriminate H.
  - reflexivity.
  - apply Forall_symbols_check. reflexivity.
  - intros H. apply includes_unit in H. discriminate H.
Defined.

Lemma lowercase_keeps_valid_and_path_witness :
  valid (validateWaveName asciiToLowerCase (str "My-Name")) = true
  /\ valid (validateWaveName asciiToLowerCase (asciiToLowerCase (str "My-Name"))) = true
  /\ getCharacterPath asciiToLowerCase (asciiToLowerCase (str "My-Name"))
     = getCharacterPath asciiToLowerCase (str "My-Name").
Proof.
  assert (Forall isAscii (str "My-Name")) as Hascii
      by (apply Forall_isAscii_check; reflexivity).
  assert (valid (validateWaveName asciiToLowerCase (str "My-Name")) = true)
    as Hvalid by reflexivity.
  split; [exact Hvalid |].
  destruct (lowercase_keeps_valid_and_path asciiToLowerCase asciiToLowerCase_ascii
              (str "My-Name") Hascii Hvalid) as [Hlower [_ Hpath]].
  split; [exact Hlower | exact Hpath].
Defined.

Lemma getCharacterPath_bounds_witness :
  valid (validateWaveName asciiToLowerCase (str "alice")) = true
  /\ exists path,
      getCharacterPath asciiToLowerCase (str "alice") = Ok path
      /\ List.length path = 5%nat
      /\ Forall (fun entry => 1 <= outputIndex entry < WAVE_OUTPUT_COUNT) path.
Proof.
  assert (valid (validateWaveName asciiToLowerCase (str "alice")) = true)
    as Hvalid by reflexivity.
  split; [exact Hvalid |].
  destruct (getCharacterPath_bounds asciiToLowerCase asciiToLowerCase_ascii
              (str "alice") Hvalid) as [path [Hpath [Hlen [Hall _]]]].
  exists path. split; [exact Hpath | split; [exact Hlen |]].
  revert Hall. apply Forall_impl. intros entry [_ [Hout _]]. exact Hout.
Defined.

Lemma getCharacterPath_decodes_witness :
  valid (validateWaveName asciiToLowerCase (str "ALICE")) = true
  /\ exists path,
      getCharacterPath asciiToLowerCase (str "ALICE") = Ok path
      /\ (chars <- mapM (fun entry => outputIndexToChar (outputIndex entry)) path ;;
          Ok (List.concat chars)) = Ok (str "alice").
Proof.
  assert (valid (validateWaveName asciiToLowerCase (str "ALICE")) = true)
    as Hvalid by reflexivity.
  split; [exact Hvalid |].
  exact (proj1 (getCharacterPath_decodes asciiToLowerCase asciiToLowerCase_ascii
                  (str "ALICE") Hvalid)).
Defined.

Lemma charToIndex_ascii_witness :
  (76 < 128)%N
  /\ charToIndex asciiToLowerCase (str "L") = Ok 11
  /\ charToIndex asciiToLowerCase (str "l") = charToIndex asciiToLowerCase (str "L").
Proof.
  assert (76 < 128)%N as Hu by reflexivity.
  split; [exact Hu |].
  destruct (charToIndex_ascii asciiToLowerCase asciiToLowerCase_ascii 76%N Hu)
    as [_ [Haccept _]].
  apply Haccept. apply includes_unit. reflexivity.
Defined.

Lemma index_decoders_witness :
  (isDouble 11 /\ isDouble 0 /\ isDouble (-1) /\ isDouble (2 ^ 60)
   /\ isDouble (10 ^ 21))
  /\ (exists c, indexToChar 11 = Ok [c] /\ In c WAVE_CHARS
                /\ charToIndex asciiToLowerCase [c] = Ok 11)
  /\ outputIndexToChar 0
     = Throw (str "Invalid branch output index: 0 (must be 1-37)")
  /\ indexToChar (-1) = Throw (str "Invalid WAVE index: -1 (must be 0-36)")
  /\ outputIndexToChar (2 ^ 60)
     = Throw (str "Invalid branch output index: 1152921504606847000 (must be 1-37)")
  /\ indexToChar (10 ^ 21) = Throw (str "Invalid WAVE index: 1e+21 (must be 0-36)").
Proof.
  assert (forall z, roundToDouble z = z -> (Z.abs z <=? maxDouble) = true ->
                    isDouble z) as Hdouble.
  { intros z Hround Hmax. split; [exact Hround | now apply Z.leb_le]. }
  assert (isDouble 11) as H11 by (apply Hdouble; reflexivity).
  assert (isDouble 0) as H0 by (apply Hdouble; reflexivity).
  assert (isDouble (-1)) as Hneg by (apply Hdouble; reflexivity).
  assert (isDouble (2 ^ 60)) as H60 by (apply Hdouble; vm_compute; reflexivity).
  assert (isDouble (10 ^ 21)) as H21 by (apply Hdouble; vm_compute; reflexivity).
  split; [exact (conj H11 (conj H0 (conj Hneg (conj H60 H21)))) |].
  destruct (index_decoders asciiToLowerCase asciiToLowerCase_ascii 11 H11)
    as [_ [Hin _]].
  destruct (index_decoders asciiToLowerCase asciiToLowerCase_ascii 0 H0)
    as [_ [_ [Hout _]]].
  destruct (index_decoders asciiToLowerCase asciiToLowerCase_ascii (-1) Hneg)
    as [Hbelow _].
  destruct (index_decoders asciiToLowerCase asciiToLowerCase_ascii (2 ^ 60) H60)
    as [_ [_ [Hbig _]]].
  destruct (index_decoders asciiToLowerCase asciiToLowerCase_ascii (10 ^ 21) H21)
    as [Hhuge _].
  split; [| split; [| split; [| split]]].
  - apply Hin. split; discriminate.
  - apply Hout. left. reflexivity.
  - apply Hbelow. left. reflexivity.
  - rewrite Hbig by (right; reflexivity). vm_compute. reflexivity.
  - rewrite Hhuge by (right; reflexivity). vm_compute. reflexivity.
Defined.

Lemma parseLabels_joinLabels_witness :
  joinLabels [str "mail"; str "alice"] = str "mail.alice"
  /\ parseLabels (joinLabels [str "mail"; str "alice"]) = [str "mail"; str "alice"].
Proof.
  split; [reflexivity |].
  apply parseLabels_joinLabels.
  repeat (constructor;
          [split; [discriminate
                  | intros H; apply includes_unit in H; discriminate H] |]).
  constructor.
Defined.

Lemma validateDomain_single_label_witness :
  valid (validateDomain asciiToLowerCase (str "alice-"))
  = valid (validateWaveName asciiToLowerCase (str "alice-"))
  /\ validateDomain asciiToLowerCase (str "alice-")
     = fail (str "Invalid label " ++ dquote ++ str "alice-" ++ dquote
             ++ str ": Name cannot end with hyphen").
Proof.
  assert (~ In 46%N (str "alice-")) as Hdot
      by (intros H; apply includes_unit in H; discriminate H).
  destruct (validateDomain_single_label asciiToLowerCase (str "alice-") Hdot)
    as [Hsame Herror].
  split; [exact Hsame |].
  apply Herror; [discriminate | reflexivity].
Defined.

Lemma validateDomain_subdomain_witness :
  validateDomain asciiToLowerCase (str "mail") = pass
  /\ validateDomain asciiToLowerCase (str "dev.alice") = pass
  /\ validateDomain asciiToLowerCase (str "mail" ++ str "." ++ str "dev.alice") = pass.
Proof.
  assert (validateDomain asciiToLowerCase (str "mail") = pass) as Ha by reflexivity.
  assert (validateDomain asciiToLowerCase (str "dev.alice") = pass) as Hb by reflexivity.
  split; [exact Ha | split; [exact Hb |]].
  destruct (validateDomain_subdomain asciiToLowerCase (str "mail") (str "dev.alice")
              Ha Hb) as [_ [Hfits _]].
  apply Hfits. vm_compute. lia.
Defined.

Lemma mutable_metadata_passes_validateProtocols_witness :
  valid (validateWaveName asciiToLowerCase (str "Alice")) = true
  /\ exists metadata,
      createWaveMetadata asciiToLowerCase stdEmptyZone (str "Alice") None None None
      = Ok metadata
      /\ Wave.name metadata = Some (str "Alice")
      /\ data_name (data (app metadata)) = str "Alice"
      /\ Glyph.validateProtocols (p metadata) = pass.
Proof.
  assert (valid (validateWaveName asciiToLowerCase (str "Alice")) = true)
    as Hvalid by reflexivity.
  split; [exact Hvalid |].
  apply (mutable_metadata_passes_validateProtocols asciiToLowerCase
           StdZoneRecords stdEmptyZone (str "Alice") None None None Hvalid).
  discriminate.
Defined.

Lemma isPunycode_of_valid_name_witness :
  valid (validateWaveName asciiToLowerCase (str "xn--wgv71a")) = true
  /\ includes (str "xn--wgv71a") (str "--") = true
  /\ isPunycode asciiToLowerCase (str "xn--wgv71a") = true.
Proof.
  assert (Forall isAscii (str "xn--wgv71a")) as Hascii
      by (apply Forall_isAscii_check; reflexivity).
  assert (valid (validateWaveName asciiToLowerCase (str "xn--wgv71a")) = true)
    as Hvalid by reflexivity.
  assert (includes (str "xn--wgv71a") (str "--") = true) as Hinc by reflexivity.
  split; [exact Hvalid | split; [exact Hinc |]].
  exact (proj2 (isPunycode_of_valid_name asciiToLowerCase asciiToLowerCase_ascii
                  (str "xn--wgv71a") Hascii) Hvalid Hinc).
Defined.

Lemma flags_are_independent_witness :
  Flags.hasFlag (Flags.setFlag 5 2) 1 = Flags.hasFlag 5 1
  /\ Flags.hasFlag (Flags.clearFlag 5 2) 1 = Flags.hasFlag 5 1.
Proof.
  apply (flags_are_independent 5 "SCRIPT_VERIFY_STRICTENC" "SCRIPT_VERIFY_P2SH" 2 1).
  - right; right; left; reflexivity.
  - right; left; reflexivity.
  - discriminate.
Defined.

Lemma estimateResolutionSize_of_valid_name_witness :
  valid (validateWaveName asciiToLowerCase (str "alice")) = true
  /\ 0 <= 10
  /\ 65536 + 10 * 500 <= 2 ^ 53
  /\ exists size,
      estimateResolutionSize (str "alice") (Some 10) = Finite size
      /\ 2048 + 10 * 500 <= size <= 65536 + 10 * 500
      /\ exists path,
          getCharacterPath asciiToLowerCase (str "alice") = Ok path
          /\ size = (Z.of_nat (List.length path) + 1) * 1024 + 10 * 500.
Proof.
  assert (valid (validateWaveName asciiToLowerCase (str "alice")) = true)
    as Hvalid by reflexivity.
  assert (0 <= 10) as Hcount by discriminate.
  assert (65536 + 10 * 500 <= 2 ^ 53) as Hbound by discriminate.
  split; [exact Hvalid | split; [exact Hcount | split; [exact Hbound |]]].
  destruct (estimateResolutionSize_of_valid_name asciiToLowerCase
              asciiToLowerCase_ascii (str "alice") 10 Hvalid Hcount Hbound)
    as [size [Hsize [Hrange Hpath]]].
  exists size. split; [exact Hsize | split; [exact Hrange |]].
  apply Hpath. apply Forall_isAscii_check. reflexivity.
Defined.

End MoreInstances.
